(** * coda-doc-scraper: selection store, attribute filter and table fetcher

    A shallow embedding of the logic of
    [src/components/CodaDocScraper/TableCard.js] (the attribute filter
    [filterData] and the two fetch effects [fetchColumns] and [fetchRows])
    and of the table list view ([handleSelectTable], [handleSelectAll]),
    followed by the properties the specification states about them.

    JavaScript values are trees ([value]); an object is the list of its own
    enumerable string-keyed properties in the order [Object.entries] reports
    them.  A thrown exception is [None] in the option monad.  Where a
    statement is about mutation, [filterData] is read a second time over a
    store of cells ([Store]).  The effect functions [fetchColumns] and
    [fetchRows] are the lists of what they do, in program order, given how
    the awaited request settles; the parent callback [onTableDataChange] is
    taken not to throw.

    The definitions come first, the properties after them. *)

From Stdlib Require Import String Ascii List ZArith NArith Bool Lia.
From Stdlib Require Import DecimalString DecimalN.
From stdpp Require Import base option list sorting strings gmap.

Set Warnings "-register-all,-clear-no-such-hyp".

(** ** Property keys *)

(** [ToString] of a non-negative integer: its decimal digits. *)
Definition string_of_index (n : N) : string :=
  NilEmpty.string_of_uint (N.to_uint n).

(** An array index is a canonical numeric string whose value is below
    2^32 - 1 (ECMAScript 6.1.7).  [Some n] is its numeric value. *)
Definition array_index (k : string) : option N :=
  match NilEmpty.uint_of_string k with
  | Some d =>
      let n := N.of_uint d in
      if String.eqb (string_of_index n) k && (n <? 4294967295)%N
      then Some n else None
  | None => None
  end.

(** [indexed 0 l] pairs every element of [l] with its index as a key:
    the entries of an array without holes. *)
Fixpoint indexed {A} (i : N) (l : list A) : list (string * A) :=
  match l with
  | [] => []
  | x :: l' => (string_of_index i, x) :: indexed (N.succ i) l'
  end.

(** The order in which an object reports its own keys: array indices in
    ascending numeric order, then the other keys (in creation order, on
    which nothing is imposed here).  Two distinct keys [k1], [k2] may appear
    in this order. *)
Definition key_before (k1 k2 : string) : Prop :=
  k1 <> k2 /\
  match array_index k1, array_index k2 with
  | Some a, Some b => (a < b)%N
  | Some _, None => True
  | None, Some _ => False
  | None, None => True
  end.

(** ** Property lists

    An object is represented by the list of its own properties, whatever
    the type [V] of the property values.

    *** Creating properties

    [Object.fromEntries] performs [CreateDataPropertyOrThrow] for each entry
    in turn.  A key that is already present keeps its place and takes the
    new value; a new array-index key is placed among the array-index keys
    in ascending numeric order; any other new key goes last
    (OrdinaryOwnPropertyKeys). *)

Section PropertyLists.
Context {V : Type}.
Local Abbreviation plist := (list (string * V)).

Definition has_prop (k : string) (o : plist) : bool :=
  existsb (fun p => String.eqb (fst p) k) o.

Fixpoint update_prop (k : string) (v : V) (o : plist) : plist :=
  match o with
  | [] => []
  | (k', v') :: o' =>
      if String.eqb k' k then (k', v) :: o' else (k', v') :: update_prop k v o'
  end.

Fixpoint insert_index (n : N) (k : string) (v : V) (o : plist) : plist :=
  match o with
  | [] => [(k, v)]
  | (k', v') :: o' =>
      match array_index k' with
      | Some m =>
          if (m <? n)%N then (k', v') :: insert_index n k v o'
          else (k, v) :: o
      | None => (k, v) :: o
      end
  end.

Definition define_prop (o : plist) (kv : string * V) : plist :=
  let '(k, v) := kv in
  if has_prop k o then update_prop k v o
  else match array_index k with
       | Some n => insert_index n k v o
       | None => o ++ [(k, v)]
       end.

Definition Object_fromEntries (es : plist) : plist :=
  fold_left define_prop es [].

(** [o[k]] for an own property: the value, or nothing when [k] is absent. *)
Fixpoint get_prop (k : string) (o : plist) : option V :=
  match o with
  | [] => None
  | (k', v) :: o' => if String.eqb k' k then Some v else get_prop k o'
  end.

(** A property list is the list of own properties of some object when its
    keys are pairwise distinct and in own-key order. *)
Definition own_keys_ordered (o : plist) : Prop :=
  StronglySorted key_before (map fst o).

End PropertyLists.

(** Two property lists with the same keys, in the same order, and values
    related by [R]. *)
Definition same_props {V W} (R : V -> W -> Prop)
  : list (string * V) -> list (string * W) -> Prop :=
  Forall2 (fun p q => fst p = fst q /\ R (snd p) (snd q)).

(** The same function under a second name, for the places where
    [Object_fromEntries] names a computation. *)
Definition fromEntries_list {V} : list (string * V) -> list (string * V) :=
  Object_fromEntries.

(** ** Values *)

Section Values.

(** The numeric payload is never inspected by the code under study; it is
    kept abstract (an IEEE double in the program). *)
Context {num : Type}.

Inductive value : Type :=
  | JUndefined
  | JNull
  | JBool (b : bool)
  | JNum (n : num)
  | JStr (s : string)
  | JArr (elems : list value)
  | JObj (ps : list (string * value)).

Definition props : Type := list (string * value).

(** [typeof v] *)
Definition typeof (v : value) : string :=
  match v with
  | JUndefined => "undefined"
  | JNull | JArr _ | JObj _ => "object"
  | JBool _ => "boolean"
  | JNum _ => "number"
  | JStr _ => "string"
  end.

(** [v === null], [v === undefined], and [v === s] for a string literal [s] *)
Definition is_null (v : value) : bool :=
  match v with JNull => true | _ => false end.

Definition is_undefined (v : value) : bool :=
  match v with JUndefined => true | _ => false end.

Definition is_string (s : string) (v : value) : bool :=
  match v with JStr t => String.eqb t s | _ => false end.

(** The one-character strings of [s], in order. *)
Fixpoint chars (s : string) : list value :=
  match s with
  | EmptyString => []
  | String c s' => JStr (String c EmptyString) :: chars s'
  end.

(** [Object.entries(v)]: throws on null and undefined, boxes the other
    primitives (a string has its characters as indexed properties, numbers
    and booleans have none). *)
Definition Object_entries (v : value) : option props :=
  match v with
  | JUndefined | JNull => None
  | JBool _ | JNum _ => Some []
  | JStr s => Some (indexed 0 (chars s))
  | JArr elems => Some (indexed 0 elems)
  | JObj ps => Some ps
  end.

(** A tree denotes a JavaScript value when every object in it does. *)
Fixpoint well_formed (v : value) : Prop :=
  match v with
  | JArr elems => fold_right (fun x P => well_formed x /\ P) True elems
  | JObj ps =>
      own_keys_ordered ps /\
      fold_right (fun p P => well_formed (snd p) /\ P) True ps
  | _ => True
  end.

(** ** The attribute filter (TableCard.js, [filterData]) *)

(** [selectedAttributes.includes(key)] *)
Definition includes (selectedAttributes : list string) (key : string) : bool :=
  existsb (String.eqb key) selectedAttributes.

(** The callback of the inner [.map]: the nested cleanup of [values]. *)
Definition clean_values (kv : string * value) : option (string * value) :=
  let '(key, value) := kv in
  if String.eqb key "values" && String.eqb (typeof value) "object"
     && negb (is_null value)
  then
    ves ← Object_entries value;
    let filteredValues :=
      Object_fromEntries
        (List.filter (fun p => negb (is_string "" (snd p))) ves) in
    Some (key, JObj filteredValues)
  else Some (key, value).

(** The predicate of the last [.filter]:
    [value !== null && value !== '' && value !== undefined] *)
Definition kept (kv : string * value) : bool :=
  negb (is_null (snd kv)) && negb (is_string "" (snd kv))
  && negb (is_undefined (snd kv)).

(** The callback of [data.map]; the two [console.log] calls only write to
    the console and are left out of this pure reading (the store model
    below records them). *)
Definition filterItem (selectedAttributes : list string) (item : value)
  : option value :=
  es ← Object_entries item;
  cleaned ← mapM clean_values
    (List.filter (fun p => includes selectedAttributes (fst p)) es);
  Some (JObj (Object_fromEntries (List.filter kept cleaned))).

Definition filterData (data : list value) (selectedAttributes : list string)
  : option (list value) :=
  mapM (filterItem selectedAttributes) data.

(** *** The filter as the specification words it

    Step 1 keeps the attributes whose name is in the allow-list.  Step 2
    replaces the value of the attribute named [values], when it is a
    non-null mapping, by a copy without the entries whose value is the empty
    string; an array counts as a mapping from its indices.  Step 3 drops
    every attribute whose value is then null, the empty string or
    undefined. *)

Definition without_empty_entries (o : props) : props :=
  List.filter (fun p => negb (is_string "" (snd p))) o.

Definition spec_cleanup (k : string) (v : value) : value :=
  if String.eqb k "values" then
    match v with
    | JObj o => JObj (without_empty_entries o)
    | JArr elems => JObj (without_empty_entries (indexed 0 elems))
    | _ => v
    end
  else v.

Definition spec_filter (allowList : list string) (r : props) : props :=
  List.filter kept
    (map (fun p => (fst p, spec_cleanup (fst p) (snd p)))
       (List.filter (fun p => includes allowList (fst p)) r)).

End Values.

Arguments value : clear implicits.
Arguments props : clear implicits.

(** ** The attribute filter over a store of mutable objects

    The program works on references: an object or an array is a cell of the
    store, and a value is a primitive or a reference to a cell.  This second
    reading of [filterData] allocates what the program allocates and lasts
    (the cleaned [values] object, the filtered item, the array returned by
    [data.map]), writes the console, and is what the statements about
    mutation are made of.  A throw is the result [None]; the store it
    leaves behind is kept. *)

Module Store.
Section Store.
Context {num : Type}.

Inductive ref_value : Type :=
  | RUndefined
  | RNull
  | RBool (b : bool)
  | RNum (n : num)
  | RStr (s : string)
  | RRef (l : nat).

Inductive cell : Type :=
  | CArray (elems : list ref_value)
  | CObject (ps : list (string * ref_value)).

Record store : Type := {
  heap : list cell;
  console : list (string * ref_value)
}.

(** Computations: a result or a throw, and the store afterwards. *)
Definition comp (A : Type) : Type := store -> option A * store.

#[global] Instance comp_ret : MRet comp := fun A a s => (Some a, s).

#[global] Instance comp_bind : MBind comp := fun A B k m s =>
  match m s with
  | (Some a, s') => k a s'
  | (None, s') => (None, s')
  end.

Definition throw {A} : comp A := fun s => (None, s).

(** A new cell goes to the end of the heap; no cell is ever written. *)
Definition alloc (c : cell) : comp ref_value := fun s =>
  (Some (RRef (length (heap s))),
   {| heap := heap s ++ [c]; console := console s |}).

(** Reading a cell; a reference to no cell does not occur in a store the
    program built, and is read as a throw. *)
Definition read (l : nat) : comp cell := fun s => (heap s !! l, s).

Definition console_log (msg : string) (v : ref_value) : comp unit := fun s =>
  (Some tt, {| heap := heap s; console := console s ++ [(msg, v)] |}).

Definition typeof (v : ref_value) : string :=
  match v with
  | RUndefined => "undefined"
  | RNull | RRef _ => "object"
  | RBool _ => "boolean"
  | RNum _ => "number"
  | RStr _ => "string"
  end.

Definition is_null (v : ref_value) : bool :=
  match v with RNull => true | _ => false end.

Definition is_undefined (v : ref_value) : bool :=
  match v with RUndefined => true | _ => false end.

Definition is_string (s : string) (v : ref_value) : bool :=
  match v with RStr t => String.eqb t s | _ => false end.

Fixpoint chars (s : string) : list ref_value :=
  match s with
  | EmptyString => []
  | String c s' => RStr (String c EmptyString) :: chars s'
  end.

Definition Object_entries (v : ref_value)
  : comp (list (string * ref_value)) :=
  match v with
  | RUndefined | RNull => throw
  | RBool _ | RNum _ => mret []
  | RStr s => mret (indexed 0 (chars s))
  | RRef l =>
      c ← read l;
      mret (match c with
            | CArray elems => indexed 0 elems
            | CObject ps => ps
            end)
  end.

Definition Object_fromEntries (es : list (string * ref_value))
  : comp ref_value :=
  alloc (CObject (fromEntries_list es)).

Definition clean_values (kv : string * ref_value)
  : comp (string * ref_value) :=
  let '(key, value) := kv in
  if String.eqb key "values" && String.eqb (typeof value) "object"
     && negb (is_null value)
  then
    ves ← Object_entries value;
    filteredValues ← Object_fromEntries
      (List.filter (fun p => negb (is_string "" (snd p))) ves);
    mret (key, filteredValues)
  else mret (key, value).

Definition kept (kv : string * ref_value) : bool :=
  negb (is_null (snd kv)) && negb (is_string "" (snd kv))
  && negb (is_undefined (snd kv)).

Definition filterItem (selectedAttributes : list string) (item : ref_value)
  : comp ref_value :=
  _ ← console_log "Row data before filtering:" item;
  es ← Object_entries item;
  cleaned ← mapM clean_values
    (List.filter (fun p => includes selectedAttributes (fst p)) es);
  filteredItem ← Object_fromEntries (List.filter kept cleaned);
  _ ← console_log "Row data after filtering:" filteredItem;
  mret filteredItem.

(** [data.map(...)]: [data] must be an array; the result is a new one. *)
Definition filterData (data : ref_value) (selectedAttributes : list string)
  : comp ref_value :=
  match data with
  | RRef l =>
      c ← read l;
      match c with
      | CArray items =>
          out ← mapM (filterItem selectedAttributes) items;
          alloc (CArray out)
      | CObject _ => throw
      end
  | _ => throw
  end.

(** The tree a value stands for in a heap, followed to depth [n]: nothing
    when a reference leads nowhere or the structure is deeper. *)
Fixpoint reify (n : nat) (h : list cell) (v : ref_value)
  : option (value num) :=
  match v with
  | RUndefined => Some JUndefined
  | RNull => Some JNull
  | RBool b => Some (JBool b)
  | RNum x => Some (JNum x)
  | RStr s => Some (JStr s)
  | RRef l =>
      match n with
      | O => None
      | S n' =>
          c ← h !! l;
          match c with
          | CArray elems => JArr <$> mapM (reify n' h) elems
          | CObject ps =>
              JObj <$> mapM (fun p => t ← reify n' h (snd p);
                                      Some (fst p, t)) ps
          end
      end
  end.

Definition denotes (h : list cell) (v : ref_value) (t : value num) : Prop :=
  exists n, reify n h v = Some t.

(** A computation only adds cells: every cell of the store it starts from
    is still there, unchanged, when it ends (by a result or by a throw). *)
Definition only_allocates {X} (m : comp X) : Prop :=
  forall s, heap s `prefix_of` heap (snd (m s)).

End Store.
End Store.

(** ** The selection store (table list view) *)

(** A table of the document as the list view receives it.  The field
    names are those of the source, prefixed: [id] is taken in Rocq. *)
Record Table : Type := {
  table_id : string;
  table_name : string;
  table_rowCount : Z;
  table_updatedAt : option string
}.

(** [tables.map(table => table.id)] *)
Definition table_ids (tables : list Table) : list string :=
  map table_id tables.

(** [handleSelectTable]: the set handed to [setSelectedTables]. *)
Definition handleSelectTable (selectedTables : gset string)
    (tableId : string) : gset string :=
  let newSelectedTables := selectedTables in
  if decide (tableId ∈ newSelectedTables)
  then newSelectedTables ∖ {[tableId]}
  else newSelectedTables ∪ {[tableId]}.

(** [handleSelectAll]: the set handed to [setSelectedTables]. *)
Definition handleSelectAll (tables : list Table)
    (selectedTables : gset string) : gset string :=
  if decide (size selectedTables = length tables)
  then ∅
  else list_to_set (table_ids tables).

(** Select-all in the specification's words: clear the selection when it
    already equals the full id list, otherwise make it the full id list. *)
Definition spec_selectAll (selected : gset string) (allIds : list string)
  : gset string :=
  if decide (selected = list_to_set allIds) then ∅ else list_to_set allIds.

Definition mk_table (i : string) : Table :=
  {| table_id := i; table_name := i; table_rowCount := 0;
     table_updatedAt := None |}.

(** ** The table data fetcher (TableCard.js) *)

(** What the constant [limit] of [fetchRows] can hold: undefined, or the
    result of [parseInt], a number or NaN. *)
Inductive limit_value : Type :=
  | LimitUndefined
  | LimitNaN
  | LimitNum (n : Z).

(** [parseInt(s, 10)] on a string: leading white space is skipped, a sign
    is read, then the longest run of decimal digits; no digit gives NaN.
    The result is kept exact (the program rounds to a double beyond 2^53,
    and has a negative zero). *)
Definition is_white_space (c : ascii) : bool :=
  let n := N_of_ascii c in
  ((9 <=? n) && (n <=? 13) || (n =? 32))%N.

Fixpoint trim_start (s : string) : string :=
  match s with
  | String c s' => if is_white_space c then trim_start s' else s
  | EmptyString => s
  end.

Definition digit_value (c : ascii) : option Z :=
  let n := N_of_ascii c in
  if ((48 <=? n) && (n <=? 57))%N then Some (Z.of_N n - 48)%Z else None.

Fixpoint leading_digits (s : string) (acc : option Z) : option Z :=
  match s with
  | String c s' =>
      match digit_value c with
      | Some d => leading_digits s' (Some (10 * default 0 acc + d)%Z)
      | None => acc
      end
  | EmptyString => acc
  end.

Definition parseInt10 (s : string) : limit_value :=
  let s := trim_start s in
  let '(sign, s) :=
    match s with
    | String "-" s' => ((-1)%Z, s')
    | String "+" s' => (1%Z, s')
    | _ => (1%Z, s)
    end in
  match leading_digits s None with
  | Some n => LimitNum (sign * n)
  | None => LimitNaN
  end.

(** The second argument of [axios.get]: the headers and, for rows, the
    [params] object [{ limit, valueFormat }]. *)
Record request : Type := {
  url : string;
  authorization : string;
  params : option (limit_value * string)
}.

(** The query parameters axios sends for [params]: a parameter whose value
    is undefined (or null) is left out, any other value is sent as text. *)
Definition query_params (r : request) : list (string * string) :=
  match params r with
  | None => []
  | Some (limit, valueFormat) =>
      match limit with
      | LimitUndefined => []
      | LimitNaN => [("limit", "NaN")]
      | LimitNum n => [("limit", NilZero.string_of_int (Z.to_int n))]
      end ++ [("valueFormat", valueFormat)]
  end.

Section Fetcher.
Context {num : Type}.

(** The state [tableData] and the hooks of one card. *)
Record table_data : Type := {
  columns : list (value num);
  rows : list (value num)
}.

Record card : Type := {
  rowCount : string;
  tableData : table_data;
  isExpanded : bool;
  isLoading : bool;
  error : string
}.

Definition initial_card : card :=
  {| rowCount := "1"; tableData := {| columns := []; rows := [] |};
     isExpanded := false; isLoading := false; error := "" |}.

(** The data props of a card; the callback props are effects below. *)
Record card_props : Type := {
  table : Table;
  apiToken : string;
  docId : string;
  selectedColumnAttributes : list string;
  selectedRowAttributes : list string
}.

(** What an effect function does to the world, in program order: calls of
    the state setters (the two [setTableData] calls are the functional
    updates [prev => ({ ...prev, columns })] and [prev => ({ ...prev, rows })]),
    console output, the request, and the parent callback. *)
Inductive effect : Type :=
  | SetIsLoading (b : bool)
  | SetError (msg : string)
  | SetTableDataColumns (filteredColumns : list (value num))
  | SetTableDataRows (filteredRows : list (value num))
  | ConsoleLog (msg : string) (arg : option (value num))
  | ConsoleError (msg : string)
  | AxiosGet (r : request)
  | OnTableDataChange (tableId : string) (data : table_data).

(** How the awaited [axios.get] settles: fulfilled with [response.data],
    or rejected (network error, status outside 2xx). *)
Inductive outcome : Type :=
  | Fulfilled (data : value num)
  | Rejected.

(** [response.data.items] as the receiver of [.map]: reading [items] off
    null or undefined throws, and so does [.map] on anything but an array. *)
Definition response_items (data : value num) : option (list (value num)) :=
  match data with
  | JObj o =>
      match get_prop "items" o with
      | Some (JArr items) => Some items
      | _ => None
      end
  | _ => None
  end.

(** [filterData] with its console output; a throw ends the output. *)
Fixpoint filterData_console (data : list (value num))
    (selectedAttributes : list string)
  : list effect * option (list (value num)) :=
  match data with
  | [] => ([], Some [])
  | item :: rest =>
      let before := ConsoleLog "Row data before filtering:" (Some item) in
      match filterItem selectedAttributes item with
      | None => ([before], None)
      | Some filteredItem =>
          let after :=
            ConsoleLog "Row data after filtering:" (Some filteredItem) in
          let '(logs, res) := filterData_console rest selectedAttributes in
          (before :: after :: logs, cons filteredItem <$> res)
      end
  end.

(** [fetchColumns], run in a render whose state is [c]. *)
Definition fetchColumns (p : card_props) (c : card) (settled : outcome)
  : list effect :=
  let catch :=
    [ConsoleError
       ("Error fetching columns for table " +:+ table_id (table p) +:+ ":");
     SetError
       "Failed to fetch columns. Please check your inputs and try again."] in
  [SetIsLoading true; SetError ""]
  ++ [ConsoleLog
        ("Fetching columns for table " +:+ table_id (table p) +:+ "...") None;
      AxiosGet
        {| url := "https://coda.io/apis/v1/docs/" +:+ docId p +:+ "/tables/"
                  +:+ table_id (table p) +:+ "/columns";
           authorization := "Bearer " +:+ apiToken p;
           params := None |}]
  ++ match settled with
     | Fulfilled data =>
         match response_items data with
         | Some items =>
             let '(logs, res) :=
               filterData_console items (selectedColumnAttributes p) in
             logs ++
             match res with
             | Some filteredColumns =>
                 [SetTableDataColumns filteredColumns;
                  OnTableDataChange (table_id (table p))
                    {| columns := filteredColumns;
                       rows := rows (tableData c) |}]
             | None => catch
             end
         | None => catch
         end
     | Rejected => catch
     end
  ++ [SetIsLoading false].

(** [fetchRows], run in a render whose state is [c]. *)
Definition fetchRows (p : card_props) (c : card) (settled : outcome)
  : list effect :=
  let catch :=
    [ConsoleError
       ("Error fetching rows for table " +:+ table_id (table p) +:+ ":");
     SetError
       "Failed to fetch rows. Please check your inputs and try again."] in
  [SetIsLoading true; SetError ""]
  ++ (if String.eqb (rowCount c) "0" then
        [SetTableDataRows [];
         OnTableDataChange (table_id (table p))
           {| columns := columns (tableData c); rows := [] |}]
      else
        let limit :=
          if String.eqb (rowCount c) "All" then LimitUndefined
          else parseInt10 (rowCount c) in
        [ConsoleLog
           ("Fetching rows for table " +:+ table_id (table p)
            +:+ " with rowCount: " +:+ rowCount c +:+ "...") None;
         AxiosGet
           {| url := "https://coda.io/apis/v1/docs/" +:+ docId p
                     +:+ "/tables/" +:+ table_id (table p) +:+ "/rows";
              authorization := "Bearer " +:+ apiToken p;
              params := Some (limit, "simpleWithArrays") |}]
        ++ match settled with
           | Fulfilled data =>
               match response_items data with
               | Some items =>
                   let '(logs, res) :=
                     filterData_console items (selectedRowAttributes p) in
                   logs ++
                   match res with
                   | Some filteredRows =>
                       [SetTableDataRows filteredRows;
                        OnTableDataChange (table_id (table p))
                          {| columns := columns (tableData c);
                             rows := filteredRows |}]
                   | None => catch
                   end
               | None => catch
               end
           | Rejected => catch
           end)
  ++ [SetIsLoading false].

(** The setters act on the state of the card at the time they are called. *)
Definition apply_effect (st : card) (e : effect) : card :=
  match e with
  | SetIsLoading b =>
      {| rowCount := rowCount st; tableData := tableData st;
         isExpanded := isExpanded st; isLoading := b; error := error st |}
  | SetError msg =>
      {| rowCount := rowCount st; tableData := tableData st;
         isExpanded := isExpanded st; isLoading := isLoading st;
         error := msg |}
  | SetTableDataColumns filteredColumns =>
      {| rowCount := rowCount st;
         tableData := {| columns := filteredColumns;
                         rows := rows (tableData st) |};
         isExpanded := isExpanded st; isLoading := isLoading st;
         error := error st |}
  | SetTableDataRows filteredRows =>
      {| rowCount := rowCount st;
         tableData := {| columns := columns (tableData st);
                         rows := filteredRows |};
         isExpanded := isExpanded st; isLoading := isLoading st;
         error := error st |}
  | ConsoleLog _ _ | ConsoleError _ | AxiosGet _ | OnTableDataChange _ _ => st
  end.

Definition run_effects (st : card) (es : list effect) : card :=
  fold_left apply_effect es st.

(** The requests among the effects, and the parent notifications. *)
Definition requests (es : list effect) : list request :=
  omap (fun e => match e with AxiosGet r => Some r | _ => None end) es.

Definition notifications (es : list effect) : list (string * table_data) :=
  omap (fun e => match e with
                 | OnTableDataChange i d => Some (i, d)
                 | _ => None
                 end) es.

(** The error banner is rendered by [{error && ...}]: when [error] is not
    the empty string. *)
Definition error_shown (st : card) : bool := negb (String.eqb (error st) "").

(** Every card instance owns its hooks: the setters called by the effect
    functions of the card of table [tableId] act on that card alone. *)
Definition deliver (tableId : string) (es : list effect)
    (cards : gmap string card) : gmap string card :=
  alter (fun st => run_effects st es) tableId cards.

End Fetcher.

(** ** The card: row options, preview and copy (TableCard.js) *)

(** An entry of [rowOptions]: [{ label, value, color }]. *)
Record row_option : Type := {
  option_label : string;
  option_value : string;
  option_color : string
}.

Definition rowOptions : list row_option :=
  [{| option_label := "Columns Only"; option_value := "0";
      option_color := "gray" |};
   {| option_label := "1 Row"; option_value := "1"; option_color := "gray" |};
   {| option_label := "All Rows"; option_value := "All";
      option_color := "gray" |}].

(** The calls of two effect functions that run at the same time reach the
    world in some interleaving: each list in its own order. *)
Inductive interleaved {X} : list X -> list X -> list X -> Prop :=
  | interleaved_nil : interleaved [] [] []
  | interleaved_left x l1 l2 l :
      interleaved l1 l2 l -> interleaved (x :: l1) l2 (x :: l)
  | interleaved_right x l1 l2 l :
      interleaved l1 l2 l -> interleaved l1 (x :: l2) (x :: l).

(** The two messages of the [catch] blocks. *)
Definition columns_error : string :=
  "Failed to fetch columns. Please check your inputs and try again.".

Definition rows_error : string :=
  "Failed to fetch rows. Please check your inputs and try again.".

Section Card.
Context {num : Type}.
Local Abbreviation card := (card (num:=num)).
Local Abbreviation table_data := (table_data (num:=num)).
Local Abbreviation outcome := (outcome (num:=num)).

(** The click handlers [() => setRowCount(option.value)] and
    [() => setIsExpanded(!isExpanded)]. *)
Definition selectRowOption (o : row_option) (st : card) : card :=
  {| rowCount := option_value o; tableData := tableData st;
     isExpanded := isExpanded st; isLoading := isLoading st;
     error := error st |}.

Definition togglePreview (st : card) : card :=
  {| rowCount := rowCount st; tableData := tableData st;
     isExpanded := negb (isExpanded st); isLoading := isLoading st;
     error := error st |}.

(** The object literal built by [handleCopyTableData] and by the preview:
    the stored columns and rows, filtered again with the attribute lists
    of the current props (columns first). *)
Definition filteredData (p : card_props) (st : card)
  : option table_data :=
  filteredColumns ← filterData (columns (tableData st))
                       (selectedColumnAttributes p);
  filteredRows ← filterData (rows (tableData st)) (selectedRowAttributes p);
  Some {| columns := filteredColumns; rows := filteredRows |}.

(** What [handleCopyTableData] does when nothing throws: it hands
    [JSON.stringify(filteredData, null, 2)] to the clipboard (recorded by
    the object that is serialized) and raises the alert, without waiting
    for the clipboard. *)
Inductive ui_effect : Type :=
  | ClipboardWriteJSON (filtered : table_data)
  | Alert (msg : string).

Definition handleCopyTableData (p : card_props) (st : card)
  : option (list ui_effect) :=
  filtered ← filteredData p st;
  Some [ClipboardWriteJSON filtered; Alert "Table data copied to clipboard!"].

(** What one render of the card shows: for every row option its label and
    whether it is the highlighted one; the preview, closed, or the loading
    skeleton, or the serialized [filteredData]; and the error banner. *)
Inductive preview_view : Type :=
  | PreviewClosed
  | PreviewSkeleton
  | PreviewJSON (filtered : table_data).

Record card_view : Type := {
  view_options : list (string * bool);
  view_preview : preview_view;
  view_error : option string
}.

Definition render (p : card_props) (st : card)
  : option card_view :=
  let options :=
    map (fun o => (option_label o, String.eqb (rowCount st) (option_value o)))
      rowOptions in
  preview ←
    (if isExpanded st then
       if isLoading st then Some PreviewSkeleton
       else PreviewJSON <$> filteredData p st
     else Some PreviewClosed);
  Some {| view_options := options; view_preview := preview;
          view_error := if String.eqb (error st) "" then None
                        else Some (error st) |}.

(** The states a card goes through: it starts from the initial hooks, and
    changes by a setter call of one of the two fetch effects (started in
    some earlier render [c], with whatever props and outcome; the calls of
    several fetches may interleave), by a click on a row option, or by a
    click on the preview toggle. *)
Inductive reachable : card -> Prop :=
  | reachable_initial : reachable initial_card
  | reachable_fetchColumns st c p settled e :
      reachable st -> reachable c -> In e (fetchColumns p c settled) ->
      reachable (apply_effect st e)
  | reachable_fetchRows st c p settled e :
      reachable st -> reachable c -> In e (fetchRows p c settled) ->
      reachable (apply_effect st e)
  | reachable_selectRowOption st o :
      reachable st -> In o rowOptions -> reachable (selectRowOption o st)
  | reachable_togglePreview st :
      reachable st -> reachable (togglePreview st).

(** A fetch fails when the request is rejected, when the response has no
    array under [items], or when the filter throws on the items. *)
Definition fetch_fails (selectedAttributes : list string)
    (settled : outcome) : Prop :=
  match settled with
  | Rejected => True
  | Fulfilled data =>
      match response_items data with
      | None => True
      | Some items => filterData items selectedAttributes = None
      end
  end.

(** The arguments of the calls of each setter among some effects, in
    order. *)
Definition column_sets (es : list (effect (num:=num))) : list (list (value num)) :=
  omap (fun e => match e with SetTableDataColumns x => Some x | _ => None end)
    es.

Definition row_sets (es : list (effect (num:=num))) : list (list (value num)) :=
  omap (fun e => match e with SetTableDataRows x => Some x | _ => None end) es.

Definition loading_sets (es : list (effect (num:=num))) : list bool :=
  omap (fun e => match e with SetIsLoading b => Some b | _ => None end) es.

Definition error_sets (es : list (effect (num:=num))) : list string :=
  omap (fun e => match e with SetError m => Some m | _ => None end) es.

(** What the filter can return for an item. *)
Definition filter_result (v : value num) : Prop :=
  exists selectedAttributes item, filterItem selectedAttributes item = Some v.

(** A filtered item cut down to an allow-list: the attributes whose name is
    in the list, as they are. *)
Definition restrict (allowList : list string) (v : value num) : value num :=
  match v with
  | JObj r => JObj (List.filter (fun p => includes allowList (fst p)) r)
  | _ => v
  end.

End Card.

(** ** The controls of the table list view *)

(** The label of the select-all button. *)
Definition selectAllLabel (tables : list Table) (selectedTables : gset string)
  : string :=
  if decide (size selectedTables = length tables)
  then "Deselect All" else "Select All".

(** What the user does in the list view: tick or untick the checkbox of a
    table, or press the select-all button. *)
Inductive list_action : Type :=
  | ToggleTable (tableId : string)
  | PressSelectAll.

Definition list_step (tables : list Table) (selectedTables : gset string)
    (a : list_action) : gset string :=
  match a with
  | ToggleTable tableId => handleSelectTable selectedTables tableId
  | PressSelectAll => handleSelectAll tables selectedTables
  end.

(** The checkboxes are those of the rows, one row per listed table. *)
Definition action_of_view (tables : list Table) (a : list_action) : Prop :=
  match a with
  | ToggleTable tableId => In tableId (table_ids tables)
  | PressSelectAll => True
  end.





(** ** Sample data

    The row of the specification's scenario, a row whose [values] is an
    array, a row whose [values] holds only empty strings, a card and its
    props, and a store holding the first row in an array. *)

Definition sample_row : props Z :=
  [("id", JStr "r1");
   ("values", JObj [("Amount", JStr ""); ("Date", JStr "2024-01-01")])].

Definition sample_array_row : props Z :=
  [("id", JStr "r2"); ("values", JArr [JStr "a"; JStr ""; JNum 3%Z])].

Definition sample_empty_row : props Z :=
  [("id", JStr "r3"); ("values", JObj [("Amount", JStr "")])].

Definition sample_props : card_props :=
  {| table := mk_table "t1"; apiToken := "token"; docId := "doc";
     selectedColumnAttributes := ["id"; "name"];
     selectedRowAttributes := ["id"; "values"] |}.

Definition sample_card (mode : string) : card (num:=Z) :=
  {| rowCount := mode;
     tableData := {| columns := [JObj [("id", JStr "c1")]];
                     rows := [JObj sample_row] |};
     isExpanded := false; isLoading := false; error := "" |}.

Definition sample_store : Store.store (num:=Z) :=
  {| Store.heap :=
       [Store.CObject [("id", Store.RStr "r1"); ("values", Store.RRef 1)];
        Store.CObject [("Amount", Store.RStr "");
                       ("Date", Store.RStr "2024-01-01")];
        Store.CArray [Store.RRef 0]];
     Store.console := [] |}.

Definition sample_filtered_row : props Z :=
  [("id", JStr "r1"); ("values", JObj [("Date", JStr "2024-01-01")])].

Definition sample_columns_response : value Z :=
  JObj [("items", JArr [JObj [("id", JStr "c1"); ("type", JStr "text")]])].

Definition sample_rows_response : value Z :=
  JObj [("items", JArr [JObj sample_row])].

Definition all_rows_option : row_option :=
  {| option_label := "All Rows"; option_value := "All";
     option_color := "gray" |}.

(** * Properties *)

(** Own-key order of a given property list, by computation. *)
Ltac solve_own_keys_ordered :=
  unfold own_keys_ordered; simpl;
  repeat (first [ apply SSorted_nil | apply SSorted_cons
                | apply List.Forall_nil | apply List.Forall_cons ]);
  (split; [discriminate | exact I]).

(** ** Property keys and property creation *)

Lemma array_index_string_of_index (n : N) :
  array_index (string_of_index n) =
  if (n <? 4294967295)%N then Some n else None.
Proof.
  unfold array_index, string_of_index.
  rewrite NilEmpty.usu. cbn zeta.
  rewrite DecimalN.Unsigned.of_to, String.eqb_refl. reflexivity.
Qed.

Lemma array_index_inv (k : string) (n : N) :
  array_index k = Some n -> k = string_of_index n /\ (n < 4294967295)%N.
Proof.
  unfold array_index.
  destruct (NilEmpty.uint_of_string k) as [d|]; [|discriminate].
  cbn zeta.
  destruct (String.eqb _ k) eqn:E; [|discriminate].
  destruct (N.ltb_spec (N.of_uint d) 4294967295); [|discriminate].
  apply String.eqb_eq in E. intros [= <-]. auto.
Qed.

Lemma string_of_index_inj (m n : N) :
  string_of_index m = string_of_index n -> m = n.
Proof.
  unfold string_of_index. intros H.
  apply DecimalN.Unsigned.to_uint_inj.
  assert (Some (N.to_uint m) = Some (N.to_uint n)) as [= ->]; [|done].
  by rewrite <- !NilEmpty.usu, H.
Qed.

Lemma key_before_index (m n : N) :
  (m < n)%N -> key_before (string_of_index m) (string_of_index n).
Proof.
  intros Hlt. split.
  - intros ->%string_of_index_inj. lia.
  - rewrite !array_index_string_of_index.
    destruct (N.ltb_spec m 4294967295), (N.ltb_spec n 4294967295); auto. lia.
Qed.

Section PropertyFacts.
Context {V : Type}.
Implicit Types (o es : list (string * V)) (v : V) (k : string).

Lemma has_prop_false k o : has_prop k o = false <-> k ∉ map fst o.
Proof.
  induction o as [|[k' v'] o IH]; simpl.
  - split; [intros _; apply not_elem_of_nil | done].
  - rewrite orb_false_iff, IH, not_elem_of_cons, String.eqb_neq.
    split; intros [? ?]; split; congruence.
Qed.

Lemma map_fst_update_prop k v o : map fst (update_prop k v o) = map fst o.
Proof.
  induction o as [|[k' v'] o IH]; simpl; [done|].
  destruct (String.eqb k' k); simpl; by rewrite ?IH.
Qed.

(** A new key that may follow every key already present is appended. *)
Lemma insert_index_last n k v o :
  array_index k = Some n ->
  Forall (fun k' => key_before k' k) (map fst o) ->
  insert_index n k v o = o ++ [(k, v)].
Proof.
  intros Hk. induction o as [|[k' v'] o IH]; simpl; [done|].
  intros [[_ Hord] Hrest]%Forall_cons. rewrite Hk in Hord.
  destruct (array_index k') as [m|]; [|done].
  destruct (N.ltb_spec m n); [|lia]. by rewrite IH.
Qed.

Lemma define_prop_last o k v :
  own_keys_ordered (o ++ [(k, v)]) -> define_prop o (k, v) = o ++ [(k, v)].
Proof.
  unfold own_keys_ordered, define_prop. rewrite map_app. simpl.
  intros (Hall & _ & _)%StronglySorted_app.
  assert (Forall (fun k' => key_before k' k) (map fst o)) as Hbefore.
  { apply Forall_forall. intros k' Hk'. apply Hall; [done|]. by left. }
  assert (has_prop k o = false) as ->.
  { apply has_prop_false. intros Hin.
    by destruct (proj1 (Forall_forall _ _) Hbefore k Hin). }
  destruct (array_index k) as [n|] eqn:Hk; [|done].
  by apply insert_index_last.
Qed.

(** Creating the entries of an object again, in the order the object
    reports them, gives the same object. *)
Lemma fold_define_prop_ordered es o :
  own_keys_ordered (o ++ es) -> fold_left define_prop es o = o ++ es.
Proof.
  revert o. induction es as [|[k v] es IH]; intros o Hwf; cbn [fold_left].
  - by rewrite app_nil_r.
  - replace (o ++ (k, v) :: es) with ((o ++ [(k, v)]) ++ es) in *
      by (by rewrite <- app_assoc).
    rewrite define_prop_last.
    + by apply IH.
    + unfold own_keys_ordered in *. rewrite map_app in Hwf.
      by apply StronglySorted_app_1_l in Hwf.
Qed.

Lemma fromEntries_ordered es :
  own_keys_ordered es -> Object_fromEntries es = es.
Proof. intros H. by apply (fold_define_prop_ordered es []). Qed.

Lemma Forall_keys_insert_index (P : string -> Prop) n k v o :
  P k -> Forall P (map fst o) -> Forall P (map fst (insert_index n k v o)).
Proof.
  intros Hk. induction o as [|[k' v'] o IH]; simpl; intros Ho.
  - by constructor.
  - apply Forall_cons in Ho as [Hk' Ho].
    destruct (array_index k') as [m|]; [destruct (m <? n)%N|]; simpl;
      repeat constructor; auto.
Qed.

Lemma insert_index_ordered n k v o :
  array_index k = Some n -> k ∉ map fst o ->
  own_keys_ordered o -> own_keys_ordered (insert_index n k v o).
Proof.
  unfold own_keys_ordered. intros Hk.
  induction o as [|[k' v'] o IH]; simpl; intros Hfresh Hwf.
  - repeat constructor.
  - apply not_elem_of_cons in Hfresh as [Hne Hfresh].
    pose proof Hwf as [Hall Hwf']%StronglySorted_cons.
    destruct (array_index k') as [m|] eqn:Hk'.
    + destruct (N.ltb_spec m n) as [Hlt|Hge]; simpl.
      * apply StronglySorted_cons. split; [|by apply IH].
        apply Forall_keys_insert_index; [|done].
        split; [congruence|]. by rewrite Hk', Hk.
      * assert (m <> n) as Hmn.
        { intros ->. apply Hne.
          apply array_index_inv in Hk as [-> _].
          by apply array_index_inv in Hk' as [-> _]. }
        apply StronglySorted_cons. split; [|done].
        constructor.
        { split; [done|]. rewrite Hk, Hk'. lia. }
        apply Forall_forall. intros k2 Hk2. split; [congruence|].
        destruct (proj1 (Forall_forall _ _) Hall k2 Hk2) as [_ Hord].
        rewrite Hk' in Hord. rewrite Hk.
        destruct (array_index k2); [lia|done].
    + simpl. apply StronglySorted_cons. split; [|done].
      constructor.
      { split; [done|]. by rewrite Hk, Hk'. }
      apply Forall_forall. intros k2 Hk2. split; [congruence|].
      destruct (proj1 (Forall_forall _ _) Hall k2 Hk2) as [_ Hord].
      rewrite Hk' in Hord. rewrite Hk.
      by destruct (array_index k2).
Qed.

Lemma append_ordered k v o :
  array_index k = None -> k ∉ map fst o ->
  own_keys_ordered o -> own_keys_ordered (o ++ [(k, v)]).
Proof.
  unfold own_keys_ordered. intros Hk Hfresh Hwf. rewrite map_app. simpl.
  apply StronglySorted_app. split_and!; [|done|repeat constructor].
  intros k1 k2 Hk1 ->%list_elem_of_singleton. split; [congruence|].
  rewrite Hk. by destruct (array_index k1).
Qed.

Lemma define_prop_ordered o kv :
  own_keys_ordered o -> own_keys_ordered (define_prop o kv).
Proof.
  destruct kv as [k v]. unfold define_prop. intros Hwf.
  destruct (has_prop k o) eqn:Hhas.
  - unfold own_keys_ordered. by rewrite map_fst_update_prop.
  - apply has_prop_false in Hhas.
    destruct (array_index k) eqn:Hk;
      auto using insert_index_ordered, append_ordered.
Qed.

(** Whatever the entries, [Object.fromEntries] builds an object. *)
Lemma fromEntries_own_keys_ordered es :
  own_keys_ordered (Object_fromEntries es).
Proof.
  unfold Object_fromEntries.
  assert (own_keys_ordered (@nil (string * V))) as Hnil by constructor.
  revert Hnil. generalize (@nil (string * V)).
  induction es as [|kv es IH]; intros o Ho; cbn [fold_left]; [done|].
  apply IH. by apply define_prop_ordered.
Qed.

(** Own-key order survives [.filter], and any [.map] that keeps the keys. *)
Lemma filter_own_keys_ordered (f : string * V -> bool) o :
  own_keys_ordered o -> own_keys_ordered (List.filter f o).
Proof.
  unfold own_keys_ordered.
  induction o as [|p o IH]; simpl; [done|].
  intros [Hall Hwf]%StronglySorted_cons.
  destruct (f p); simpl; [|by apply IH].
  apply StronglySorted_cons. split; [|by apply IH].
  apply Forall_forall. intros k Hk.
  apply (proj1 (Forall_forall _ _) Hall).
  apply list_elem_of_In, in_map_iff in Hk as (q & <- & Hq).
  apply filter_In in Hq as [Hq _].
  apply list_elem_of_In, in_map_iff. eauto.
Qed.

Lemma own_keys_ordered_NoDup o : own_keys_ordered o -> NoDup (map fst o).
Proof.
  unfold own_keys_ordered. induction 1 as [|k ks _ IH Hall]; constructor.
  - intros Hin. by destruct (proj1 (Forall_forall _ _) Hall k Hin).
  - done.
Qed.

Lemma indexed_own_keys_ordered (i : N) (l : list V) :
  own_keys_ordered (indexed i l).
Proof.
  unfold own_keys_ordered. revert i.
  induction l as [|x l IH]; intros i; simpl; constructor; [apply IH|].
  assert (forall j, (i < j)%N ->
    Forall (key_before (string_of_index i)) (map fst (indexed j l))) as H.
  { clear IH. induction l as [|y l IH]; intros j Hj; simpl; constructor.
    - by apply key_before_index.
    - apply IH. lia. }
  apply H. lia.
Qed.

(** Every property of the object built by [Object.fromEntries] is one of
    the entries. *)
Lemma update_prop_subset k v o p :
  p ∈ update_prop k v o -> p ∈ o \/ p = (k, v).
Proof.
  induction o as [|[k' v'] o IH]; simpl; [by left|].
  destruct (String.eqb_spec k' k) as [->|_].
  - intros [->|Hp]%elem_of_cons; [by right|]. left. by right.
  - intros [->|Hp]%elem_of_cons; [left; by left|].
    destruct (IH Hp); [left; by right|by right].
Qed.

Lemma insert_index_subset n k v o p :
  p ∈ insert_index n k v o -> p ∈ o \/ p = (k, v).
Proof.
  induction o as [|[k' v'] o IH]; simpl.
  - intros ->%list_elem_of_singleton. by right.
  - destruct (array_index k') as [m|]; [destruct (m <? n)%N|].
    + intros [->|Hp]%elem_of_cons; [left; by left|].
      destruct (IH Hp); [left; by right|by right].
    + intros [->|Hp]%elem_of_cons; [by right|by left].
    + intros [->|Hp]%elem_of_cons; [by right|by left].
Qed.

Lemma define_prop_subset o kv p :
  p ∈ define_prop o kv -> p ∈ o \/ p = kv.
Proof.
  destruct kv as [k v]. unfold define_prop.
  destruct (has_prop k o); [apply update_prop_subset|].
  destruct (array_index k); [apply insert_index_subset|].
  intros [Hp| ->%list_elem_of_singleton]%elem_of_app; auto.
Qed.

Lemma fromEntries_subset es p : p ∈ Object_fromEntries es -> p ∈ es.
Proof.
  unfold Object_fromEntries.
  assert (forall o, p ∈ fold_left define_prop es o -> p ∈ o \/ p ∈ es) as H.
  { induction es as [|kv es IH]; intros o; cbn [fold_left]; [by left|].
    intros [[Hp| ->]%define_prop_subset|Hp]%IH.
    - by left.
    - right. by left.
    - right. by right. }
  intros [Hp%not_elem_of_nil|Hp]%H; done.
Qed.

Lemma fromEntries_Forall (P : string * V -> Prop) es :
  Forall P es -> Forall P (Object_fromEntries es).
Proof.
  rewrite !Forall_forall. intros H p Hp%fromEntries_subset. auto.
Qed.

End PropertyFacts.

(** *** Two readings of the same object

    The functions on property lists do not look at the values: on two
    lists with the same keys and related values they do the same. *)

Section PropertyRelations.
Context {V W : Type} (R : V -> W -> Prop).
Implicit Types (o es : list (string * V)).
Local Abbreviation same_props := (same_props R).

Lemma same_props_has_prop k o (o' : list (string * W)) :
  same_props o o' -> has_prop k o = has_prop k o'.
Proof.
  induction 1 as [|[k1 v1] [k2 v2] o o' [Hk _] _ IH]; simpl in *; [done|].
  by rewrite Hk, IH.
Qed.

Lemma same_props_update_prop k v w o (o' : list (string * W)) :
  R v w -> same_props o o' ->
  same_props (update_prop k v o) (update_prop k w o').
Proof.
  intros Hvw.
  induction 1 as [|[k1 v1] [k2 v2] o o' [Hk Hv] Ho IH]; simpl in *;
    [constructor|]. subst k2.
  destruct (String.eqb k1 k); constructor; auto.
Qed.

Lemma same_props_insert_index n k v w o (o' : list (string * W)) :
  R v w -> same_props o o' ->
  same_props (insert_index n k v o) (insert_index n k w o').
Proof.
  intros Hvw.
  induction 1 as [|[k1 v1] [k2 v2] o o' [Hk Hv] Ho IH]; simpl in *.
  - by repeat constructor.
  - subst k2. destruct (array_index k1) as [m|]; [destruct (m <? n)%N|];
      repeat (constructor; auto).
Qed.

Lemma same_props_define_prop o (o' : list (string * W))
    (kv : string * V) (kw : string * W) :
  same_props o o' -> fst kv = fst kw -> R (snd kv) (snd kw) ->
  same_props (define_prop o kv) (define_prop o' kw).
Proof.
  destruct kv as [k v], kw as [k' w]. simpl. intros Ho <- Hvw.
  unfold define_prop. rewrite <- (same_props_has_prop k o o' Ho).
  destruct (has_prop k o); [by apply same_props_update_prop|].
  destruct (array_index k); [by apply same_props_insert_index|].
  apply Forall2_app; [done|]. by repeat constructor.
Qed.

Lemma same_props_fromEntries es (es' : list (string * W)) :
  same_props es es' ->
  same_props (Object_fromEntries es) (Object_fromEntries es').
Proof.
  unfold Object_fromEntries.
  assert (same_props [] []) as Hnil by constructor.
  revert Hnil. generalize (@nil (string * V)) (@nil (string * W)).
  intros o o' Ho Hes. revert o o' Ho.
  induction Hes as [|kv kw es es' [Hk Hv] _ IH]; intros o o' Ho;
    cbn [fold_left]; [done|].
  apply IH. by apply same_props_define_prop.
Qed.

Lemma same_props_filter (f : string * V -> bool) (g : string * W -> bool)
    es (es' : list (string * W)) :
  (forall p q, fst p = fst q -> R (snd p) (snd q) -> f p = g q) ->
  same_props es es' -> same_props (List.filter f es) (List.filter g es').
Proof.
  intros Hfg. induction 1 as [|p q es es' [Hk Hv] _ IH]; simpl; [constructor|].
  rewrite (Hfg p q Hk Hv). destruct (g q); [constructor|]; auto.
Qed.

Lemma same_props_indexed i (l : list V) (l' : list W) :
  Forall2 R l l' -> same_props (indexed i l) (indexed i l').
Proof.
  intros H. revert i.
  induction H as [|x y l l' Hxy _ IH]; intros i; simpl.
  - constructor.
  - constructor; [by split|apply IH].
Qed.

End PropertyRelations.

(** ** The attribute filter *)

Section FilterFacts.
Context {num : Type}.
Implicit Types (o es r : props num) (v item : value num) (k : string).
Implicit Types (A : list string) (kv : string * value num).

Lemma kept_true kv :
  kept kv = true <->
  snd kv <> JNull /\ snd kv <> JStr "" /\ snd kv <> JUndefined.
Proof.
  unfold kept. destruct kv as [k []]; simpl; try (split; [intuition congruence|done]).
  - split; [done|]. intros (_ & _ & H). by destruct H.
  - split; [done|]. intros (H & _). by destruct H.
  - rewrite andb_true_r, negb_true_iff, String.eqb_neq.
    split; [intros H; split_and!; congruence|]. intros (_ & H & _). congruence.
Qed.

Lemma includes_In A k : includes A k = true <-> In k A.
Proof.
  unfold includes. rewrite existsb_exists. split.
  - by intros (x & Hx & ->%String.eqb_eq).
  - intros Hk. exists k. by rewrite String.eqb_refl.
Qed.

Lemma filter_all_true {X} (f : X -> bool) (l : list X) :
  Forall (fun x => f x = true) l -> List.filter f l = l.
Proof. induction 1 as [|x l Hx _ IH]; simpl; [done|]. by rewrite Hx, IH. Qed.

Lemma without_empty_entries_fixed o :
  Forall (fun p => negb (is_string "" (snd p)) = true) (without_empty_entries o).
Proof. apply Forall_forall. by intros p [_ Hp]%list_elem_of_In%filter_In. Qed.

(** The nested cleanup never throws and keeps the key. *)
Lemma clean_values_key kv kv' : clean_values kv = Some kv' -> fst kv' = fst kv.
Proof.
  destruct kv as [k v]. unfold clean_values.
  destruct (_ && _); [|by intros [= <-]].
  destruct (Object_entries v); simpl; [by intros [= <-]|done].
Qed.

Lemma clean_values_total kv : is_Some (clean_values kv).
Proof.
  destruct kv as [k v]. unfold clean_values.
  destruct (String.eqb k "values"); simpl; [|by eexists].
  destruct v; simpl; by eexists.
Qed.

(** In the specification's words, for a value whose objects are objects. *)
Lemma clean_values_spec k v :
  (forall o, v = JObj o -> own_keys_ordered o) ->
  clean_values (k, v) = Some (k, spec_cleanup k v).
Proof.
  intros Hwf. unfold clean_values, spec_cleanup.
  destruct (String.eqb k "values"); simpl; [|done].
  destruct v as [| | | | |elems|o]; simpl; try done.
  - rewrite fromEntries_ordered; [done|].
    apply filter_own_keys_ordered, indexed_own_keys_ordered.
  - rewrite fromEntries_ordered; [done|].
    apply filter_own_keys_ordered. by apply Hwf.
Qed.

(** A cleaned attribute is left alone by a second cleanup. *)
Lemma clean_values_fixed kv kv' :
  clean_values kv = Some kv' -> clean_values kv' = Some kv'.
Proof.
  destruct kv as [k v]. unfold clean_values at 1.
  destruct (String.eqb k "values" && _ && _) eqn:Hc; [|intros [= <-]].
  - destruct (Object_entries v) as [ves|]; simpl; [|done]. intros [= <-].
    apply andb_true_iff in Hc as [[Hk _]%andb_true_iff _].
    unfold clean_values. rewrite Hk. simpl.
    rewrite (filter_all_true _ (Object_fromEntries _)).
    + by rewrite fromEntries_ordered by apply fromEntries_own_keys_ordered.
    + apply fromEntries_Forall, without_empty_entries_fixed.
  - unfold clean_values. by rewrite Hc.
Qed.

Lemma mapM_clean_values_spec r :
  Forall (fun p => forall o, snd p = JObj o -> own_keys_ordered o) r ->
  mapM clean_values r
  = Some (map (fun p => (fst p, spec_cleanup (fst p) (snd p))) r).
Proof.
  intros H. apply mapM_Some.
  induction H as [|[k v] r Hp _ IH]; simpl; constructor; [|done].
  by apply clean_values_spec.
Qed.

Lemma well_formed_JObj r :
  well_formed (JObj r) <->
  own_keys_ordered r /\ Forall (fun p => well_formed (snd p)) r.
Proof.
  simpl. apply and_iff_compat_l.
  induction r as [|p r IH]; simpl.
  - split; [by constructor|done].
  - rewrite Forall_cons, IH. done.
Qed.

Lemma spec_filter_own_keys_ordered A r :
  own_keys_ordered r -> own_keys_ordered (spec_filter A r).
Proof.
  intros Hr. unfold spec_filter. apply filter_own_keys_ordered.
  unfold own_keys_ordered. rewrite map_map. simpl.
  change (own_keys_ordered
            (List.filter (fun p => includes A (fst p)) r)).
  by apply filter_own_keys_ordered.
Qed.

(** On a record, the code computes the three steps of the specification. *)
Lemma filterItem_record A r :
  well_formed (JObj r) ->
  filterItem A (JObj r) = Some (JObj (spec_filter A r)).
Proof.
  intros [Hord Hall]%well_formed_JObj. unfold filterItem. simpl.
  rewrite mapM_clean_values_spec; simpl.
  - rewrite fromEntries_ordered; [done|].
    by apply spec_filter_own_keys_ordered.
  - apply Forall_forall. intros p [Hp _]%list_elem_of_In%filter_In o Ho.
    apply list_elem_of_In in Hp.
    pose proof (proj1 (Forall_forall _ _) Hall p Hp) as Hwf.
    cbv beta in Hwf. rewrite Ho in Hwf. by destruct Hwf.
Qed.

Lemma get_prop_In k v o :
  NoDup (map fst o) -> get_prop k o = Some v <-> In (k, v) o.
Proof.
  induction o as [|[k' v'] o IH]; simpl; [done|].
  intros [Hfresh Hnd]%NoDup_cons.
  destruct (String.eqb_spec k' k) as [->|Hne].
  - split; [intros [= ->]; by left|].
    intros [[= ->]|Hin]; [done|]. destruct Hfresh.
    apply list_elem_of_In, in_map_iff. by exists (k, v).
  - rewrite IH by done. split; [by right|].
    intros [[= ? ?]|Hin]; done.
Qed.

(** The attributes of the filtered record, one by one. *)
Lemma get_prop_spec_filter A r k v' :
  own_keys_ordered r ->
  get_prop k (spec_filter A r) = Some v' <->
  In k A /\
  exists v, get_prop k r = Some v /\ v' = spec_cleanup k v /\
    v' <> JNull /\ v' <> JStr "" /\ v' <> JUndefined.
Proof.
  intros Hr.
  rewrite get_prop_In
    by by apply own_keys_ordered_NoDup, spec_filter_own_keys_ordered.
  unfold spec_filter.
  rewrite filter_In, in_map_iff, kept_true. simpl. split.
  - intros [([k0 v0] & [= -> <-] & [Hin Hk]%filter_In) Hkept].
    apply includes_In in Hk. apply get_prop_In in Hin;
      [|by apply own_keys_ordered_NoDup]. eauto 10.
  - intros (Hk & v & Hin & -> & Hkept). split; [|done].
    apply get_prop_In in Hin; [|by apply own_keys_ordered_NoDup].
    exists (k, v). split; [done|]. apply filter_In. split; [done|].
    by apply includes_In.
Qed.

(** A filtered item is left alone by a second pass with the same
    allow-list. *)
Lemma filterItem_fixed A item out :
  filterItem A item = Some out -> filterItem A out = Some out.
Proof.
  unfold filterItem at 1.
  destruct (Object_entries item) as [es|]; simpl; [|done].
  destruct (mapM clean_values _) as [cleaned|] eqn:Hc; simpl; [|done].
  intros [= <-]. apply mapM_Some in Hc.
  assert (Forall (fun p => includes A (fst p) = true
                           /\ clean_values p = Some p) cleaned) as Hcleaned.
  { assert (Forall (fun p => includes A (fst p) = true)
              (List.filter (fun p => includes A (fst p)) es)) as Hsel.
    { apply Forall_forall. by intros p [_ Hp]%list_elem_of_In%filter_In. }
    induction Hc as [|p q l l' Hpq _ IH]; [constructor|].
    apply Forall_cons in Hsel as [Hp Hsel].
    constructor; [|by apply IH]. split.
    - by rewrite (clean_values_key _ _ Hpq).
    - by apply clean_values_fixed in Hpq. }
  set (r1 := Object_fromEntries (List.filter kept cleaned)).
  assert (Forall (fun p => (includes A (fst p) = true
                            /\ clean_values p = Some p)
                           /\ kept p = true) r1) as Hr1.
  { apply fromEntries_Forall, Forall_forall.
    intros p [Hp Hkept]%list_elem_of_In%filter_In.
    apply list_elem_of_In in Hp.
    split; [|done]. by apply (proj1 (Forall_forall _ _) Hcleaned). }
  unfold filterItem. simpl.
  rewrite filter_all_true
    by (eapply Forall_impl; [exact Hr1|]; by intros p [[? _] _]).
  replace (mapM clean_values r1) with (Some r1).
  - simpl. rewrite filter_all_true
      by (eapply Forall_impl; [exact Hr1|]; by intros p [_ ?]).
    by rewrite fromEntries_ordered by apply fromEntries_own_keys_ordered.
  - symmetry. apply mapM_Some, Forall_Forall2_diag.
    eapply Forall_impl; [exact Hr1|]. by intros p [[_ ?] _].
Qed.

Lemma filterData_fixed A (data out : list (value num)) :
  filterData data A = Some out -> filterData out A = Some out.
Proof.
  unfold filterData. intros H%mapM_Some. apply mapM_Some.
  induction H as [|x y l l' Hxy _ IH]; constructor; [|done].
  by apply filterItem_fixed in Hxy.
Qed.

End FilterFacts.

(** ** The claims about the attribute filter *)

Section FilterClaims.
Context {num : Type}.
Implicit Types (r : props num) (A : list string).

(** C3.  Filtering the one-record sequence [[R]] with the allow-list [A]
    yields a single record that has exactly the attributes of [R] whose
    name is in [A] and whose value, after the nested cleanup of [values],
    is not null, not the empty string and not undefined; the value it
    carries is the cleaned one.  Filtering the empty sequence yields the
    empty sequence, and filtering with the empty allow-list yields one
    empty record per input record. *)
Theorem filterData_exact_attributes A :
  (forall r, well_formed (JObj r) ->
     exists r', filterData [JObj r] A = Some [JObj r'] /\
       forall k v', get_prop k r' = Some v' <->
         In k A /\
         exists v, get_prop k r = Some v /\ v' = spec_cleanup k v /\
           v' <> JNull /\ v' <> JStr "" /\ v' <> JUndefined)
  /\ filterData (num:=num) [] A = Some []
  /\ forall rs : list (props num),
       filterData (map JObj rs) [] = Some (map (fun _ => JObj []) rs).
Proof.
  split_and!.
  - intros r Hwf. exists (spec_filter A r). split.
    + unfold filterData. simpl. by rewrite filterItem_record.
    + intros k v'. apply get_prop_spec_filter.
      by apply well_formed_JObj in Hwf as [? _].
  - done.
  - intros rs. unfold filterData. apply mapM_Some.
    induction rs as [|r rs IH]; simpl; constructor; [|done].
    unfold filterItem. simpl.
    replace (List.filter _ r) with (@nil (string * value num)); [done|].
    symmetry. induction r as [|p r IHr]; simpl; done.
Qed.

(** C4.  Filtering an already filtered record again with the same
    allow-list changes nothing. *)
Theorem filterData_idempotent r A :
  exists out, filterData [JObj r] A = Some out
              /\ filterData out A = Some out.
Proof.
  assert (is_Some (filterData [JObj r] A)) as [out Hout].
  { unfold filterData. apply mapM_is_Some. repeat constructor.
    unfold filterItem. simpl.
    destruct (mapM clean_values _) eqn:Hc; simpl; [by eexists|].
    apply mapM_None, Exists_exists in Hc as (kv & _ & Hkv).
    destruct (clean_values_total kv) as [? Hsome]. congruence. }
  exists out. split; [done|]. by apply filterData_fixed in Hout.
Qed.

(** C9.  When [values] is allowed and holds an array, the filtered record
    holds under [values] a plain object keyed by the decimal indices of the
    elements that are not the empty string; it is no longer an array. *)
Theorem filterData_array_values_becomes_object r A elems :
  well_formed (JObj r) ->
  get_prop "values" r = Some (JArr elems) ->
  In "values" A ->
  exists r', filterData [JObj r] A = Some [JObj r'] /\
    get_prop "values" r'
    = Some (JObj (without_empty_entries (indexed 0 elems))) /\
    forall l, get_prop "values" r' <> Some (JArr l).
Proof.
  intros Hwf Hget HA. exists (spec_filter A r).
  assert (get_prop "values" (spec_filter A r)
          = Some (JObj (without_empty_entries (indexed 0 elems)))) as Hres.
  { apply get_prop_spec_filter; [by apply well_formed_JObj in Hwf as [? _]|].
    split; [done|]. exists (JArr elems). by split_and!. }
  split_and!.
  - unfold filterData. simpl. by rewrite filterItem_record.
  - done.
  - intros l. by rewrite Hres.
Qed.

(** C10.  When [values] is allowed and holds a mapping all of whose
    entries are the empty string, the filtered record still has [values],
    bound to the empty object: the last step does not drop an empty
    object. *)
Theorem filterData_keeps_empty_values_object r A o :
  well_formed (JObj r) ->
  get_prop "values" r = Some (JObj o) ->
  Forall (fun p => snd p = JStr "") o ->
  In "values" A ->
  exists r', filterData [JObj r] A = Some [JObj r'] /\
    get_prop "values" r' = Some (JObj []).
Proof.
  intros Hwf Hget Hempty HA. exists (spec_filter A r). split.
  - unfold filterData. simpl. by rewrite filterItem_record.
  - apply get_prop_spec_filter; [by apply well_formed_JObj in Hwf as [? _]|].
    split; [done|]. exists (JObj o).
    assert (without_empty_entries o = []) as Hnone.
    { clear Hget. induction Hempty as [|[k v] o Hp _ IH]; simpl; [done|].
      simpl in Hp. by rewrite Hp. }
    split_and!; try done.
    change (spec_cleanup "values" (JObj o))
      with (JObj (without_empty_entries o)).
    by rewrite Hnone.
Qed.

End FilterClaims.

(** ** The selection store *)

Lemma size_list_to_set_le (l : list string) :
  size (list_to_set l : gset string) <= length l.
Proof.
  induction l as [|x l IH].
  - by rewrite list_to_set_nil, size_empty.
  - rewrite list_to_set_cons, size_union_alt, size_singleton. simpl.
    assert (list_to_set l ∖ {[x]} ⊆ (list_to_set l : gset string)) as Hsub
      by set_solver.
    apply subseteq_size in Hsub. lia.
Qed.

Lemma size_list_to_set_NoDup (l : list string) :
  size (list_to_set l : gset string) = length l <-> NoDup l.
Proof.
  split; [|apply size_list_to_set].
  induction l as [|x l IH]; [constructor|].
  rewrite list_to_set_cons. simpl.
  intros Hsize. destruct (decide (x ∈ l)) as [Hin|Hout].
  - assert ({[x]} ∪ list_to_set l = (list_to_set l : gset string)) as Heq
      by set_solver.
    rewrite Heq in Hsize. pose proof (size_list_to_set_le l). lia.
  - rewrite size_union, size_singleton in Hsize by set_solver.
    constructor; [done|]. apply IH. lia.
Qed.

(** When the selection holds only ids of listed tables and no id is
    listed twice, comparing sizes is comparing the sets. *)
Lemma size_eq_all_selected (tables : list Table) (S : gset string) :
  NoDup (table_ids tables) -> S ⊆ list_to_set (table_ids tables) ->
  size S = length tables <-> S = list_to_set (table_ids tables).
Proof.
  intros Hnd Hsub.
  assert (size (list_to_set (table_ids tables) : gset string)
          = length tables) as Hall.
  { rewrite size_list_to_set by done. unfold table_ids. by rewrite length_map. }
  split; [|by intros ->].
  intros Hsize. apply set_subseteq_size_eq; [done|]. lia.
Qed.

(** C1, as stated, fails: with one listed table [a] and the selection
    [{x}], the sizes agree, the code clears the selection, yet the
    selection is not the full id list. *)
Lemma handleSelectAll_not_spec_selectAll :
  handleSelectAll [mk_table "a"] {["x"]} = ∅ /\
  spec_selectAll {["x"]} (table_ids [mk_table "a"]) = {["a"]} /\
  handleSelectAll [mk_table "a"] {["x"]}
  <> spec_selectAll {["x"]} (table_ids [mk_table "a"]).
Proof.
  assert (handleSelectAll [mk_table "a"] {["x"]} = ∅) as Hcode.
  { unfold handleSelectAll. rewrite size_singleton. by case_decide. }
  assert (spec_selectAll {["x"]} (table_ids [mk_table "a"]) = {["a"]})
    as Hspec.
  { unfold spec_selectAll. simpl. rewrite union_empty_r_L.
    case_decide as Heq; [|done].
    assert ("x" ∈ ({["a"]} : gset string)) as Hin by (rewrite <- Heq; set_solver).
    by apply elem_of_singleton in Hin. }
  split_and!; [done|done|].
  rewrite Hcode, Hspec. intros Heq.
  assert ("a" ∈ (∅ : gset string)) as Hin by (rewrite Heq; set_solver).
  set_solver.
Qed.

(** The other way C1 fails as stated: with the id [a] listed twice and the
    selection [{a}], the selection is the full id list, yet the sizes
    differ and the code does not clear it. *)
Lemma handleSelectAll_duplicate_ids :
  ({["a"]} : gset string) = list_to_set (table_ids [mk_table "a"; mk_table "a"])
  /\ handleSelectAll [mk_table "a"; mk_table "a"] {["a"]} = {["a"]}.
Proof.
  assert (({["a"]} : gset string)
          = list_to_set (table_ids [mk_table "a"; mk_table "a"])) as Heq
    by (simpl; set_solver).
  split; [done|]. unfold handleSelectAll. rewrite size_singleton.
  case_decide; [done|]. by rewrite <- Heq.
Qed.

(** C1, amended.  When no id is listed twice and the selection holds only
    ids of listed tables, select-all clears the selection if and only if it
    already is the full id list, and otherwise makes it the full id list.
    The code decides by comparing the number of selected ids with the
    number of tables. *)
Theorem handleSelectAll_spec_on_listed_ids (tables : list Table)
    (S : gset string) :
  NoDup (table_ids tables) -> S ⊆ list_to_set (table_ids tables) ->
  handleSelectAll tables S = spec_selectAll S (table_ids tables) /\
  (handleSelectAll tables S = ∅ <-> S = list_to_set (table_ids tables)).
Proof.
  intros Hnd Hsub.
  pose proof (size_eq_all_selected tables S Hnd Hsub) as Hiff.
  unfold handleSelectAll, spec_selectAll.
  repeat case_decide; try tauto.
  split; [done|]. split; [|done].
  intros Hempty. apply set_eq. intros x. split; [set_solver|].
  rewrite Hempty. set_solver.
Qed.

(** C2, as stated, fails: from the selection [{a}] with tables [a] and
    [b], the first call selects both and the second clears them. *)
Lemma handleSelectAll_twice_not_identity :
  handleSelectAll [mk_table "a"; mk_table "b"]
    (handleSelectAll [mk_table "a"; mk_table "b"] {["a"]})
  <> {["a"]}.
Proof.
  assert (handleSelectAll [mk_table "a"; mk_table "b"] {["a"]}
          = {["a"; "b"]}) as ->.
  { unfold handleSelectAll. rewrite size_singleton.
    case_decide; [done|]. simpl. by rewrite union_empty_r_L. }
  assert (handleSelectAll [mk_table "a"; mk_table "b"] {["a"; "b"]} = ∅)
    as ->.
  { unfold handleSelectAll.
    rewrite size_union, !size_singleton by set_solver. by case_decide. }
  intros Heq.
  assert ("a" ∈ (∅ : gset string)) as Hin by (rewrite Heq; set_solver).
  set_solver.
Qed.

Lemma handleSelectAll_all_or_nothing (tables : list Table)
    (S : gset string) :
  handleSelectAll tables S = ∅ \/
  handleSelectAll tables S = list_to_set (table_ids tables).
Proof. unfold handleSelectAll. case_decide; auto. Qed.

(** C2, amended.  Two select-all calls with the same table list restore
    the selection exactly when it is the full id list, or it is empty and
    no id is listed twice; whatever the selection was, they end at the
    empty set or at the full id list. *)
Theorem handleSelectAll_twice (tables : list Table) (S : gset string) :
  (handleSelectAll tables (handleSelectAll tables S) = S <->
   S = list_to_set (table_ids tables) \/
   (S = ∅ /\ NoDup (table_ids tables))) /\
  (handleSelectAll tables (handleSelectAll tables S) = ∅ \/
   handleSelectAll tables (handleSelectAll tables S)
   = list_to_set (table_ids tables)).
Proof.
  split; [|apply handleSelectAll_all_or_nothing].
  pose proof (size_list_to_set_NoDup (table_ids tables)) as Hnd.
  assert (length (table_ids tables) = length tables) as Hlen
    by (unfold table_ids; by rewrite length_map).
  rewrite Hlen in Hnd.
  assert (forall X : gset string, size X = 0 -> X = ∅) as Hinv.
  { intros X HX. apply leibniz_equiv. by apply size_empty_iff. }
  unfold handleSelectAll.
  destruct (decide (size S = length tables)) as [HS|HS].
  - (* the first call clears *)
    rewrite size_empty.
    destruct (decide (0 = length tables)) as [Hn|Hn].
    + assert (S = ∅) as -> by (apply Hinv; lia).
      split; [intros _|done]. left.
      destruct tables; [done|discriminate].
    + split; [by left|]. intros [->|[-> _]]; [done|].
      rewrite size_empty in HS. lia.
  - (* the first call selects every listed id *)
    destruct (decide (size (list_to_set (table_ids tables) : gset string)
                      = length tables)) as [HA|HA].
    + split.
      * intros <-. right. split; [done|]. by apply Hnd.
      * intros [->|[-> _]]; [lia|done].
    + split; [by left|]. intros [->|[_ Hno]]; [done|].
      by apply Hnd in Hno.
Qed.

(** ** The table data fetcher *)

Section FetcherFacts.
Context {num : Type}.
Implicit Types (p : card_props) (c st : card (num:=num)).
Implicit Types (settled : outcome (num:=num)) (es : list (effect (num:=num))).

Lemma filterData_console_result (data : list (value num)) A :
  snd (filterData_console data A) = filterData data A.
Proof.
  unfold filterData. induction data as [|item rest IH]; simpl; [done|].
  destruct (filterItem A item) as [filteredItem|]; simpl; [|done].
  destruct (filterData_console rest A) as [logs res]. simpl in *.
  by rewrite <- IH.
Qed.

(** [filterData] sends nothing, notifies nobody and calls no setter. *)
Lemma filterData_console_quiet (data : list (value num)) A :
  requests (fst (filterData_console data A)) = [] /\
  notifications (fst (filterData_console data A)) = [] /\
  forall st, run_effects st (fst (filterData_console data A)) = st.
Proof.
  induction data as [|item rest (IH1 & IH2 & IH3)]; simpl; [done|].
  destruct (filterItem A item) as [filteredItem|]; simpl; [|done].
  destruct (filterData_console rest A) as [logs res]. simpl in *. done.
Qed.

Lemma requests_app es1 es2 :
  requests (es1 ++ es2) = requests es1 ++ requests es2.
Proof. apply omap_app. Qed.

Lemma notifications_app es1 es2 :
  notifications (es1 ++ es2) = notifications es1 ++ notifications es2.
Proof. apply omap_app. Qed.

Lemma run_effects_app st es1 es2 :
  run_effects st (es1 ++ es2) = run_effects (run_effects st es1) es2.
Proof. apply fold_left_app. Qed.

(** What follows the request sends nothing more, whatever the outcome. *)
Lemma fetchRows_requests p c settled :
  rowCount c <> "0" ->
  requests (fetchRows p c settled)
  = [{| url := "https://coda.io/apis/v1/docs/" +:+ docId p
               +:+ "/tables/" +:+ table_id (table p) +:+ "/rows";
        authorization := "Bearer " +:+ apiToken p;
        params := Some (if String.eqb (rowCount c) "All" then LimitUndefined
                        else parseInt10 (rowCount c), "simpleWithArrays") |}].
Proof.
  intros Hmode%String.eqb_neq. unfold fetchRows. rewrite Hmode.
  rewrite !requests_app. simpl. f_equal.
  assert (forall tail, requests (num:=num) tail = [] ->
            requests tail ++ [] = (@nil request)) as Hnil
    by (by intros ? ->).
  apply Hnil. destruct settled as [data|]; [|done].
  destruct (response_items data) as [items|]; [|done].
  pose proof (filterData_console_quiet items (selectedRowAttributes p))
    as (Hq & _ & _).
  destruct (filterData_console items _) as [logs res]. simpl in Hq.
  rewrite requests_app, Hq. by destruct res.
Qed.

(** C5.  In row mode ['0'] (columns only) the fetch step sends no row
    request, stores the empty sequence as the rows of the table, and tells
    the parent so. *)
Theorem fetchRows_columns_only p c settled st :
  rowCount c = "0" ->
  requests (fetchRows p c settled) = [] /\
  rows (tableData (run_effects st (fetchRows p c settled))) = [] /\
  notifications (fetchRows p c settled)
  = [(table_id (table p),
      {| columns := columns (tableData c); rows := [] |})].
Proof. intros Hmode. unfold fetchRows. rewrite Hmode. by simpl. Qed.

(** C8.  In row mode ['1'] the row request carries the limit 1; in row
    mode ['All'] its limit is undefined and the request is sent without a
    limit parameter.  In both modes it is the only request. *)
Theorem fetchRows_limit p c settled :
  (rowCount c = "1" ->
   exists r, requests (fetchRows p c settled) = [r] /\
     params r = Some (LimitNum 1, "simpleWithArrays") /\
     query_params r = [("limit", "1"); ("valueFormat", "simpleWithArrays")])
  /\
  (rowCount c = "All" ->
   exists r, requests (fetchRows p c settled) = [r] /\
     params r = Some (LimitUndefined, "simpleWithArrays") /\
     get_prop "limit" (query_params r) = None).
Proof.
  split; intros Hmode; eexists; (split; [apply fetchRows_requests|]);
    rewrite ?Hmode; done.
Qed.

(** C6.  When the column request, or the row request, of a table is
    rejected, the card of that table shows an error and keeps the columns
    and rows it had; the cards of the other tables are untouched and the
    parent is not notified. *)
Theorem fetch_failure_is_local p c (cards : gmap string card) st es :
  cards !! table_id (table p) = Some st ->
  es = fetchColumns p c Rejected \/
  (rowCount c <> "0" /\ es = fetchRows p c Rejected) ->
  (exists st', deliver (table_id (table p)) es cards !! table_id (table p)
               = Some st' /\
     error_shown st' = true /\ tableData st' = tableData st) /\
  (forall t, t <> table_id (table p) ->
     deliver (table_id (table p)) es cards !! t = cards !! t) /\
  notifications es = [].
Proof.
  intros Hst Hes. split_and!.
  - exists (run_effects st es). split.
    + unfold deliver. by rewrite lookup_alter_eq, Hst.
    + destruct Hes as [->|[Hmode%String.eqb_neq ->]]; [done|].
      unfold fetchRows. by rewrite Hmode.
  - intros t Ht. unfold deliver. by rewrite lookup_alter_ne.
  - destruct Hes as [->|[Hmode%String.eqb_neq ->]]; [done|].
    unfold fetchRows. by rewrite Hmode.
Qed.

End FetcherFacts.

(** ** The attribute filter over the store *)

Section StoreFacts.
Context {num : Type}.
Local Abbreviation ref_value := (Store.ref_value (num:=num)).
Local Abbreviation cell := (Store.cell (num:=num)).
Local Abbreviation store := (Store.store (num:=num)).
Local Abbreviation comp := (Store.comp (num:=num)).
Implicit Types (s : store) (h : list cell) (v item data : ref_value).
Implicit Types (t : value num) (A : list string) (kv : string * ref_value).

Lemma only_allocates_ret {X} (x : X) :
  Store.only_allocates (mret x : comp X).
Proof. by intros s. Qed.

Lemma only_allocates_throw {X} : Store.only_allocates (@Store.throw num X).
Proof. by intros s. Qed.

Lemma only_allocates_bind {X Y} (m : comp X) (k : X -> comp Y) :
  Store.only_allocates m -> (forall x, Store.only_allocates (k x)) ->
  Store.only_allocates (m ≫= k).
Proof.
  intros Hm Hk s. unfold mbind, Store.comp_bind.
  specialize (Hm s). destruct (m s) as [[x|] s']; simpl in *; [|done].
  etrans; [exact Hm|apply Hk].
Qed.

Lemma only_allocates_alloc (c : cell) : Store.only_allocates (Store.alloc c).
Proof. intros s. simpl. by apply prefix_app_r. Qed.

Lemma only_allocates_read l : Store.only_allocates (Store.read (num:=num) l).
Proof. by intros s. Qed.

Lemma only_allocates_console_log msg v :
  Store.only_allocates (Store.console_log msg v).
Proof. by intros s. Qed.

Lemma only_allocates_mapM {X Y} (f : X -> comp Y) (l : list X) :
  (forall x, Store.only_allocates (f x)) -> Store.only_allocates (mapM f l).
Proof.
  intros Hf. induction l as [|x l IH]; simpl.
  - apply only_allocates_ret.
  - apply only_allocates_bind; [done|]. intros y.
    apply only_allocates_bind; [done|]. intros ys.
    apply only_allocates_ret.
Qed.

Lemma only_allocates_entries v : Store.only_allocates (Store.Object_entries v).
Proof.
  destruct v; simpl;
    auto using only_allocates_ret, only_allocates_throw.
  apply only_allocates_bind; [apply only_allocates_read|].
  intros c. apply only_allocates_ret.
Qed.

Lemma only_allocates_fromEntries (es : list (string * ref_value)) :
  Store.only_allocates (Store.Object_fromEntries es).
Proof. apply only_allocates_alloc. Qed.

Lemma only_allocates_clean_values kv :
  Store.only_allocates (Store.clean_values kv).
Proof.
  destruct kv as [k v]. unfold Store.clean_values.
  destruct (_ && _); [|apply only_allocates_ret].
  apply only_allocates_bind; [apply only_allocates_entries|]. intros ves.
  apply only_allocates_bind; [apply only_allocates_fromEntries|]. intros o.
  apply only_allocates_ret.
Qed.

Lemma only_allocates_filterItem A item :
  Store.only_allocates (Store.filterItem A item).
Proof.
  unfold Store.filterItem.
  repeat (apply only_allocates_bind; [|intros ?]);
    auto using only_allocates_console_log, only_allocates_entries,
      only_allocates_mapM, only_allocates_clean_values,
      only_allocates_fromEntries, only_allocates_ret.
Qed.

Lemma only_allocates_filterData data A :
  Store.only_allocates (Store.filterData data A).
Proof.
  destruct data; simpl; try apply only_allocates_throw.
  apply only_allocates_bind; [apply only_allocates_read|].
  intros [items|ps]; [|apply only_allocates_throw].
  apply only_allocates_bind; [|intros out; apply only_allocates_alloc].
  apply only_allocates_mapM. intros item. apply only_allocates_filterItem.
Qed.

(** *** Reading trees off the heap *)

Local Abbreviation reads n h :=
  (fun v t => Store.reify (num:=num) n h v = Some t).

Lemma reify_RStr n h str : Store.reify n h (Store.RStr str) = Some (JStr str).
Proof. by destruct n. Qed.

(** What the filter looks at in a value is seen in its tree. *)
Lemma reify_observations n h v t :
  Store.reify n h v = Some t ->
  Store.typeof v = typeof t /\ Store.is_null v = is_null t /\
  Store.is_undefined v = is_undefined t /\
  forall str, Store.is_string str v = is_string str t.
Proof.
  destruct n as [|n], v; simpl; try (by intros [= <-]).
  destruct (h !! l) as [[elems|ps]|]; simpl; [| |done].
  - destruct (mapM _ elems); simpl; [by intros [= <-]|done].
  - destruct (mapM _ ps); simpl; [by intros [= <-]|done].
Qed.

(** A tree read at some depth is read at any larger depth, and in any
    heap with more cells. *)
Lemma reify_mono n m h h' v t :
  n <= m -> h `prefix_of` h' ->
  Store.reify n h v = Some t -> Store.reify m h' v = Some t.
Proof.
  revert m v t. induction n as [|n IH]; intros m v t Hnm Hh.
  - destruct v, m; simpl; done.
  - destruct m as [|m]; [lia|]. destruct v; simpl; try done.
    destruct (h !! l) as [c|] eqn:Hl; simpl; [|done].
    rewrite (prefix_lookup_Some _ _ _ _ Hl Hh). simpl.
    destruct c as [elems|ps].
    + destruct (mapM (Store.reify n h) elems) as [ts|] eqn:HM; simpl;
        [|done].
      intros [= <-]. apply mapM_Some in HM.
      assert (mapM (Store.reify m h') elems = Some ts) as ->; [|done].
      apply mapM_Some. eapply Forall2_impl; [exact HM|].
      intros x y Hxy. apply IH; [lia|done|done].
    + destruct (mapM _ ps) as [ts|] eqn:HM; simpl; [|done].
      intros [= <-]. apply mapM_Some in HM.
      match goal with |- JObj <$> ?M = _ => assert (M = Some ts) as -> end;
        [|done].
      apply mapM_Some. eapply Forall2_impl; [exact HM|].
      intros [k x] y. simpl.
      destruct (Store.reify n h x) as [t|] eqn:Hx; simpl; [|done].
      by rewrite (IH m x t ltac:(lia) Hh Hx).
Qed.

Lemma same_props_mono n m h h' (es : list (string * ref_value))
    (ts : list (string * value num)) :
  n <= m -> h `prefix_of` h' ->
  same_props (reads n h) es ts -> same_props (reads m h') es ts.
Proof.
  intros Hnm Hh Hes. eapply Forall2_impl; [exact Hes|].
  intros p q [Hk Hv]. split; [done|]. by eapply reify_mono.
Qed.

Lemma reify_array n h l elems :
  h !! l = Some (Store.CArray elems) ->
  forall t, Store.reify (S n) h (Store.RRef l) = Some t <->
    exists ts, t = JArr ts /\ Forall2 (reads n h) elems ts.
Proof.
  intros Hl t. simpl. rewrite Hl. simpl. split.
  - destruct (mapM _ elems) as [ts|] eqn:HM; simpl; [|done].
    intros [= <-]. exists ts. split; [done|]. by apply mapM_Some.
  - intros (ts & -> & HM%mapM_Some). by rewrite HM.
Qed.

Lemma reify_object n h l ps :
  h !! l = Some (Store.CObject ps) ->
  forall t, Store.reify (S n) h (Store.RRef l) = Some t <->
    exists ts, t = JObj ts /\ same_props (reads n h) ps ts.
Proof.
  intros Hl t. simpl. rewrite Hl. simpl.
  assert (forall ts,
    mapM (fun p => t0 ← Store.reify n h (snd p); Some (fst p, t0)) ps
    = Some ts <-> same_props (reads n h) ps ts) as Hrel.
  { intros ts. rewrite mapM_Some. unfold same_props.
    split; intros H; (eapply Forall2_impl; [exact H|]).
    - intros [k x] [k' y]. simpl.
      destruct (Store.reify n h x); simpl; [|done]. by intros [= -> ->].
    - intros [k x] [k' y]. simpl. by intros [-> ->]. }
  split.
  - destruct (mapM _ ps) as [ts|] eqn:HM; simpl; [|done].
    intros [= <-]. exists ts. split; [done|]. by apply Hrel.
  - intros (ts & -> & HM%Hrel). by rewrite HM.
Qed.

(** *** The store reading computes the tree reading *)

Lemma mapM_comp_cons {X Y} (f : X -> comp Y) x l s :
  mapM f (x :: l) s
  = match f x s with
    | (Some y, s1) =>
        match mapM f l s1 with
        | (Some ys, s2) => (Some (y :: ys), s2)
        | (None, s2) => (None, s2)
        end
    | (None, s1) => (None, s1)
    end.
Proof.
  simpl. unfold mbind, Store.comp_bind at 1. destruct (f x s) as [[y|] s1]; [|done].
  unfold Store.comp_bind. by destruct (mapM f l s1) as [[ys|] s2].
Qed.

Lemma chars_related n h str :
  Forall2 (reads n h) (Store.chars str) (chars str).
Proof.
  induction str as [|c str IH]; simpl; constructor; [|done].
  apply reify_RStr.
Qed.

Lemma entries_sim n s v t :
  Store.reify (S n) (Store.heap s) v = Some t ->
  match Object_entries t with
  | Some ts =>
      exists es, Store.Object_entries v s = (Some es, s) /\
                 same_props (reads n (Store.heap s)) es ts
  | None => Store.Object_entries v s = (None, s)
  end.
Proof.
  destruct v as [| | | |str|l].
  1-5: intros [= <-]; simpl; try done; eexists; (split; [done|]).
  - constructor.
  - constructor.
  - apply same_props_indexed, chars_related.
  - intros Ht.
    destruct (Store.heap s !! l) as [[elems|ps]|] eqn:Hl;
      [| |simpl in Ht; by rewrite Hl in Ht].
    + destruct (proj1 (reify_array n _ _ _ Hl t) Ht) as (ts & -> & Hts).
      simpl.
      exists (indexed 0 elems). split.
      * unfold mbind, Store.comp_bind, Store.read. by rewrite Hl.
      * by apply same_props_indexed.
    + destruct (proj1 (reify_object n _ _ _ Hl t) Ht) as (ts & -> & Hts).
      simpl.
      exists ps. split; [|done].
      unfold mbind, Store.comp_bind, Store.read. by rewrite Hl.
Qed.

(** The object [Object.fromEntries] allocates reads as the object the tree
    reading builds. *)
Lemma fromEntries_sim n s (es : list (string * ref_value))
    (ts : list (string * value num)) :
  same_props (reads n (Store.heap s)) es ts ->
  exists o s',
    Store.Object_fromEntries es s = (Some o, s') /\
    Store.heap s `prefix_of` Store.heap s' /\
    Store.reify (S n) (Store.heap s') o = Some (JObj (Object_fromEntries ts)).
Proof.
  intros Hes. eexists _, _. split; [reflexivity|]. simpl. split.
  - by apply prefix_app_r.
  - apply (reify_object n _ _ (fromEntries_list es)).
    + by apply list_lookup_middle.
    + eexists. split; [done|]. apply same_props_fromEntries.
      eapply same_props_mono; [done| |exact Hes]. by apply prefix_app_r.
Qed.

Lemma clean_values_sim n s k v t :
  Store.reify n (Store.heap s) v = Some t ->
  exists v' s' t',
    Store.clean_values (k, v) s = (Some (k, v'), s') /\
    Store.heap s `prefix_of` Store.heap s' /\
    clean_values (k, t) = Some (k, t') /\
    Store.reify n (Store.heap s') v' = Some t'.
Proof.
  intros Ht. pose proof (reify_observations _ _ _ _ Ht) as (Hty & Hnull & _).
  unfold Store.clean_values, clean_values. rewrite Hty, Hnull.
  destruct (String.eqb k "values" && String.eqb (typeof t) "object"
            && negb (is_null t)) eqn:Hc.
  - (* a non-null object: a reference, read one level down *)
    destruct n as [|n].
    { destruct v; simpl in Ht; try done; injection Ht as <-;
        by rewrite ?andb_false_r in Hc. }
    pose proof (entries_sim n s v t Ht) as Hent.
    destruct (Object_entries t) as [ts|] eqn:Hts.
    + destruct Hent as (es & Hes & Hrel).
      destruct (fromEntries_sim n s
                  (List.filter (fun p => negb (Store.is_string "" (snd p))) es)
                  (List.filter (fun p => negb (is_string "" (snd p))) ts))
        as (o & s' & Ho & Hpre & Hread).
      { apply same_props_filter; [|done]. intros p q _ Hpq.
        apply reify_observations in Hpq as (_ & _ & _ & Hstr).
        by rewrite Hstr. }
      exists o, s', (JObj (Object_fromEntries
        (List.filter (fun p => negb (is_string "" (snd p))) ts))).
      split_and!; [|done|done|done].
      unfold mbind, Store.comp_bind at 1. rewrite Hes.
      unfold Store.comp_bind. by rewrite Ho.
    + destruct t; simpl in Hts, Hc; try done;
        by rewrite ?andb_false_r in Hc.
  - exists v, s, t. by split_and!.
Qed.

Lemma mapM_clean_values_sim n (es : list (string * ref_value))
    (ts : list (string * value num)) s :
  same_props (reads n (Store.heap s)) es ts ->
  exists cleaned s' cleaned',
    mapM Store.clean_values es s = (Some cleaned, s') /\
    Store.heap s `prefix_of` Store.heap s' /\
    mapM clean_values ts = Some cleaned' /\
    same_props (reads n (Store.heap s')) cleaned cleaned'.
Proof.
  intros Hes. revert s ts Hes.
  induction es as [|[k v] es IH]; intros s ts Hes.
  - apply Forall2_nil_inv_l in Hes as ->.
    exists [], s, []. split_and!; try done. constructor.
  - apply Forall2_cons_inv_l in Hes as ([k' t] & ts' & [Hk Hv] & Hes & ->).
    simpl in Hk, Hv. subst k'.
    destruct (clean_values_sim n s k v t Hv)
      as (v' & s1 & t' & Hrun & Hpre1 & Hpure & Hread).
    destruct (IH s1 ts')
      as (cleaned & s2 & cleaned' & Hrun2 & Hpre2 & Hpure2 & Hrel).
    { by eapply same_props_mono; [| |exact Hes]. }
    exists ((k, v') :: cleaned), s2, ((k, t') :: cleaned').
    split_and!.
    + by rewrite mapM_comp_cons, Hrun, Hrun2.
    + by etrans.
    + apply mapM_Some. constructor; [done|]. by apply mapM_Some.
    + constructor; [|done]. split; [done|]. simpl.
      by eapply reify_mono; [| |exact Hread].
Qed.

Lemma bind_run {X Y} (m : comp X) (k : X -> comp Y) s :
  (m ≫= k) s
  = match m s with
    | (Some x, s') => k x s'
    | (None, s') => (None, s')
    end.
Proof. reflexivity. Qed.

Lemma filterItem_sim A n s item t :
  Store.reify (S n) (Store.heap s) item = Some t ->
  exists s', Store.heap s `prefix_of` Store.heap s' /\
    match filterItem A t with
    | Some t' =>
        exists out, Store.filterItem A item s = (Some out, s') /\
                    Store.reify (S n) (Store.heap s') out = Some t'
    | None => Store.filterItem A item s = (None, s')
    end.
Proof.
  intros Ht. unfold Store.filterItem, filterItem. rewrite bind_run.
  set (s0 := {| Store.heap := Store.heap s;
                Store.console := Store.console s ++
                  [("Row data before filtering:", item)] |}).
  change (Store.console_log "Row data before filtering:" item s)
    with (Some (), s0).
  cbv iota beta. rewrite bind_run.
  pose proof (entries_sim n s0 item t Ht) as Hent.
  destruct (Object_entries t) as [ts|]; simpl.
  2:{ exists s0. split; [done|]. by rewrite Hent. }
  destruct Hent as (es & -> & Hrel). cbv iota beta. rewrite bind_run.
  destruct (mapM_clean_values_sim n
              (List.filter (fun p => includes A (fst p)) es)
              (List.filter (fun p => includes A (fst p)) ts) s0)
    as (cleaned & s1 & cleaned' & -> & Hpre1 & -> & Hcleaned).
  { apply same_props_filter; [|done]. by intros p q -> _. }
  simpl. rewrite bind_run.
  destruct (fromEntries_sim n s1 (List.filter Store.kept cleaned)
              (List.filter kept cleaned'))
    as (o & s2 & -> & Hpre2 & Hread).
  { apply same_props_filter; [|done]. intros p q _ Hpq. unfold Store.kept, kept.
    apply reify_observations in Hpq as (_ & -> & -> & ->). done. }
  cbv iota beta. rewrite bind_run.
  eexists. split; [|exists o; split; [reflexivity|exact Hread]].
  simpl. by etrans.
Qed.

Lemma mapM_filterItem_sim A n (items : list ref_value)
    (ds : list (value num)) s :
  Forall2 (reads (S n) (Store.heap s)) items ds ->
  exists s', Store.heap s `prefix_of` Store.heap s' /\
    match mapM (filterItem A) ds with
    | Some outs' =>
        exists outs, mapM (Store.filterItem A) items s = (Some outs, s') /\
                     Forall2 (reads (S n) (Store.heap s')) outs outs'
    | None => mapM (Store.filterItem A) items s = (None, s')
    end.
Proof.
  intros H. revert s ds H.
  induction items as [|item items IH]; intros s ds H.
  - apply Forall2_nil_inv_l in H as ->. exists s. split; [done|].
    exists []. split; [done|constructor].
  - apply Forall2_cons_inv_l in H as (t & ds' & Ht & Hds & ->).
    destruct (filterItem_sim A n s item t Ht) as (s1 & Hpre1 & Hitem).
    rewrite mapM_comp_cons.
    change (mapM (filterItem A) (t :: ds'))
      with (y ← filterItem A t; k ← mapM (filterItem A) ds'; Some (y :: k)).
    destruct (filterItem A t) as [t'|];
      cbn [mbind option_bind mret option_ret].
    2:{ exists s1. split; [done|]. by rewrite Hitem. }
    destruct Hitem as (out & -> & Hout).
    destruct (IH s1 ds') as (s2 & Hpre2 & Hrest).
    { eapply Forall2_impl; [exact Hds|]. intros x y Hxy.
      by eapply reify_mono; [| |exact Hxy]. }
    exists s2. split; [by etrans|].
    destruct (mapM (filterItem A) ds') as [outs'|];
      cbn [mbind option_bind mret option_ret].
    + destruct Hrest as (outs & -> & Houts). exists (out :: outs).
      split; [done|]. constructor; [|done].
      by eapply reify_mono; [| |exact Hout].
    + by rewrite Hrest.
Qed.

Lemma filterData_sim A n s data (ds : list (value num)) :
  Store.reify (S (S n)) (Store.heap s) data = Some (JArr ds) ->
  exists s', Store.heap s `prefix_of` Store.heap s' /\
    match filterData ds A with
    | Some outs =>
        exists out, Store.filterData data A s = (Some out, s') /\
          Store.reify (S (S n)) (Store.heap s') out = Some (JArr outs)
    | None => Store.filterData data A s = (None, s')
    end.
Proof.
  intros Hdata. destruct data as [| | | | |l]; try (by destruct n).
  destruct (Store.heap s !! l) as [[items|ps]|] eqn:Hl.
  - destruct (proj1 (reify_array (S n) _ _ _ Hl _) Hdata)
      as (ts & [= <-] & Hitems).
    destruct (mapM_filterItem_sim A n items ds s Hitems)
      as (s1 & Hpre1 & Hrun).
    unfold Store.filterData, filterData. rewrite bind_run.
    change (Store.read l s) with (Store.heap s !! l, s). rewrite Hl.
    cbv iota beta. rewrite bind_run.
    destruct (mapM (filterItem A) ds) as [outs|].
    + destruct Hrun as (out & -> & Hout). cbv iota beta.
      eexists. split; [|eexists; split; [reflexivity|]].
      * simpl. etrans; [exact Hpre1|]. by apply prefix_app_r.
      * apply (reify_array (S n) _ _ out).
        { by apply list_lookup_middle. }
        eexists. split; [done|].
        eapply Forall2_impl; [exact Hout|]. intros x y Hxy.
        eapply reify_mono; [| |exact Hxy]; [done|by apply prefix_app_r].
    + exists s1. split; [done|]. by rewrite Hrun.
  - by destruct (proj1 (reify_object (S n) _ _ _ Hl _) Hdata) as (ts & ? & _).
  - simpl in Hdata. by rewrite Hl in Hdata.
Qed.

(** C7.  The attribute filter is pure.  Run twice in a row on the same
    records and allow-list, it leaves every cell of the store it started
    from as it was (it only allocates, and writes the console), so
    the input records and their attribute values still read as before; and
    the two results read as the same trees, those of the tree reading of
    the filter (or both runs throw). *)
Theorem filterData_store_pure data A s :
  let run1 := Store.filterData data A s in
  let run2 := Store.filterData data A (snd run1) in
  (forall l c, Store.heap s !! l = Some c ->
     Store.heap (snd run1) !! l = Some c /\
     Store.heap (snd run2) !! l = Some c) /\
  forall ds, Store.denotes (Store.heap s) data (JArr ds) ->
    Store.denotes (Store.heap (snd run2)) data (JArr ds) /\
    match filterData ds A with
    | Some outs =>
        exists out1 out2, fst run1 = Some out1 /\ fst run2 = Some out2 /\
          Store.denotes (Store.heap (snd run2)) out1 (JArr outs) /\
          Store.denotes (Store.heap (snd run2)) out2 (JArr outs)
    | None => fst run1 = None /\ fst run2 = None
    end.
Proof.
  intros run1 run2.
  pose proof (only_allocates_filterData data A s) as Hpre1.
  pose proof (only_allocates_filterData data A (snd run1)) as Hpre2.
  fold run1 in Hpre1. fold run2 in Hpre2. split.
  - intros l c Hl.
    assert (Store.heap (snd run1) !! l = Some c) as Hl1
      by by eapply prefix_lookup_Some.
    split; [done|]. by eapply prefix_lookup_Some.
  - intros ds [n Hn].
    assert (Store.reify (S (S n)) (Store.heap s) data = Some (JArr ds))
      as Hdata by (eapply reify_mono; [| |exact Hn]; [lia|done]).
    assert (Store.reify (S (S n)) (Store.heap (snd run1)) data
            = Some (JArr ds)) as Hdata1
      by (eapply reify_mono; [| |exact Hdata]; done).
    split.
    { exists (S (S n)). eapply reify_mono; [| |exact Hdata1]; done. }
    destruct (filterData_sim A n s data ds Hdata) as (s1 & _ & Hrun1).
    destruct (filterData_sim A n (snd run1) data ds Hdata1)
      as (s2 & _ & Hrun2).
    fold run1 in Hrun1. fold run2 in Hrun2.
    destruct (filterData ds A) as [outs|].
    + destruct Hrun1 as (out1 & Hrun1 & Hout1).
      destruct Hrun2 as (out2 & Hrun2 & Hout2).
      assert (snd run1 = s1) as Hs1 by by rewrite Hrun1.
      assert (snd run2 = s2) as Hs2 by by rewrite Hrun2.
      exists out1, out2. rewrite Hs1 in Hpre2. rewrite Hs2 in *.
      split_and!.
      * by rewrite Hrun1.
      * by rewrite Hrun2.
      * exists (S (S n)). eapply reify_mono; [| |exact Hout1]; done.
      * by exists (S (S n)).
    + by rewrite Hrun1, Hrun2.
Qed.

End StoreFacts.

(** ** The claims on sample data *)

Lemma sample_row_well_formed : well_formed (JObj sample_row).
Proof.
  simpl. split_and!; try exact I; solve_own_keys_ordered.
Qed.

Lemma sample_array_row_well_formed : well_formed (JObj sample_array_row).
Proof.
  simpl. split_and!; try exact I; solve_own_keys_ordered.
Qed.

Lemma sample_empty_row_well_formed : well_formed (JObj sample_empty_row).
Proof.
  simpl. split_and!; try exact I; solve_own_keys_ordered.
Qed.

(** C3 on the row of the scenario. *)
Lemma filterData_exact_attributes_witness :
  well_formed (JObj sample_row) /\
  exists r', filterData [JObj sample_row] ["id"; "values"] = Some [JObj r'] /\
    forall k v', get_prop k r' = Some v' <->
      In k ["id"; "values"] /\
      exists v, get_prop k sample_row = Some v /\ v' = spec_cleanup k v /\
        v' <> JNull /\ v' <> JStr "" /\ v' <> JUndefined.
Proof.
  split; [exact sample_row_well_formed|].
  exact (proj1 (filterData_exact_attributes ["id"; "values"])
           sample_row sample_row_well_formed).
Defined.

(** C9 on a row whose [values] is the array [["a", "", 3]]. *)
Lemma filterData_array_values_becomes_object_witness :
  well_formed (JObj sample_array_row) /\
  get_prop "values" sample_array_row
  = Some (JArr [JStr "a"; JStr ""; JNum 3%Z]) /\
  In "values" ["id"; "values"] /\
  exists r', filterData [JObj sample_array_row] ["id"; "values"]
             = Some [JObj r'] /\
    get_prop "values" r'
    = Some (JObj [("0", JStr "a"); ("2", JNum 3%Z)]) /\
    forall l, get_prop "values" r' <> Some (JArr l).
Proof.
  assert (In "values" ["id"; "values"]) as HA by (right; by left).
  split_and!; [exact sample_array_row_well_formed|reflexivity|exact HA|].
  exact (filterData_array_values_becomes_object sample_array_row
           ["id"; "values"] [JStr "a"; JStr ""; JNum 3%Z]
           sample_array_row_well_formed eq_refl HA).
Defined.

(** C10 on a row whose [values] is [{ Amount: "" }]. *)
Lemma filterData_keeps_empty_values_object_witness :
  well_formed (JObj sample_empty_row) /\
  get_prop "values" sample_empty_row = Some (JObj [("Amount", JStr "")]) /\
  Forall (fun p => snd p = JStr "") [("Amount", JStr (num:=Z) "")] /\
  In "values" ["values"] /\
  exists r', filterData [JObj sample_empty_row] ["values"]
             = Some [JObj r'] /\
    get_prop "values" r' = Some (JObj []).
Proof.
  assert (In "values" ["values"]) as HA by by left.
  assert (Forall (fun p => snd p = JStr "") [("Amount", JStr (num:=Z) "")])
    as Hempty by (by repeat constructor).
  split_and!;
    [exact sample_empty_row_well_formed|reflexivity|exact Hempty|exact HA|].
  exact (filterData_keeps_empty_values_object sample_empty_row ["values"]
           [("Amount", JStr "")] sample_empty_row_well_formed eq_refl
           Hempty HA).
Defined.

(** C1 (amended) with the tables [a] and [b] and the selection [{a}]. *)
Lemma handleSelectAll_spec_on_listed_ids_witness :
  NoDup (table_ids [mk_table "a"; mk_table "b"]) /\
  ({["a"]} : gset string)
    ⊆ list_to_set (table_ids [mk_table "a"; mk_table "b"]) /\
  handleSelectAll [mk_table "a"; mk_table "b"] {["a"]}
  = spec_selectAll {["a"]} (table_ids [mk_table "a"; mk_table "b"]) /\
  (handleSelectAll [mk_table "a"; mk_table "b"] {["a"]} = ∅ <->
   ({["a"]} : gset string)
   = list_to_set (table_ids [mk_table "a"; mk_table "b"])).
Proof.
  assert (NoDup (table_ids [mk_table "a"; mk_table "b"])) as Hnd.
  { simpl. repeat constructor; set_solver. }
  assert (({["a"]} : gset string)
            ⊆ list_to_set (table_ids [mk_table "a"; mk_table "b"])) as Hsub.
  { simpl. set_solver. }
  split_and!; [exact Hnd|exact Hsub| |];
    apply (handleSelectAll_spec_on_listed_ids
             [mk_table "a"; mk_table "b"] {["a"]} Hnd Hsub).
Defined.

(** C5 on a card in row mode ['0'] whose request, had there been one,
    would have been rejected. *)
Lemma fetchRows_columns_only_witness :
  rowCount (sample_card "0") = "0" /\
  requests (fetchRows sample_props (sample_card "0") Rejected) = [] /\
  rows (tableData (run_effects (sample_card "0")
                     (fetchRows sample_props (sample_card "0") Rejected)))
  = [] /\
  notifications (fetchRows sample_props (sample_card "0") Rejected)
  = [("t1", {| columns := [JObj [("id", JStr "c1")]]; rows := [] |})].
Proof.
  split; [reflexivity|].
  exact (fetchRows_columns_only sample_props (sample_card "0") Rejected
           (sample_card "0") eq_refl).
Defined.

(** C8 on a card in row mode ['1'] and on one in row mode ['All']. *)
Lemma fetchRows_limit_witness :
  (rowCount (sample_card "1") = "1" /\
   exists r, requests (fetchRows sample_props (sample_card "1") Rejected)
             = [r] /\
     params r = Some (LimitNum 1, "simpleWithArrays") /\
     query_params r
     = [("limit", "1"); ("valueFormat", "simpleWithArrays")]) /\
  (rowCount (sample_card "All") = "All" /\
   exists r, requests (fetchRows sample_props (sample_card "All") Rejected)
             = [r] /\
     params r = Some (LimitUndefined, "simpleWithArrays") /\
     get_prop "limit" (query_params r) = None).
Proof.
  split; (split; [reflexivity|]).
  - exact (proj1 (fetchRows_limit sample_props (sample_card "1") Rejected)
             eq_refl).
  - exact (proj2 (fetchRows_limit sample_props (sample_card "All") Rejected)
             eq_refl).
Defined.

(** C6 on the rejected row request of the card of table [t1], beside the
    card of table [t2]. *)
Lemma fetch_failure_is_local_witness :
  let cards : gmap string card :=
    {["t1" := sample_card "1"; "t2" := sample_card "All"]} in
  let es := fetchRows sample_props (sample_card "1") Rejected in
  cards !! "t1" = Some (sample_card "1") /\
  rowCount (sample_card "1") <> "0" /\
  (exists st', deliver "t1" es cards !! "t1" = Some st' /\
     error_shown st' = true /\
     tableData st' = tableData (sample_card "1")) /\
  (forall t, t <> "t1" -> deliver "t1" es cards !! t = cards !! t) /\
  notifications es = [].
Proof.
  intros cards es.
  assert (cards !! "t1" = Some (sample_card "1")) as Hst
    by (unfold cards; by rewrite lookup_insert_eq).
  assert (rowCount (sample_card "1") <> "0") as Hmode by discriminate.
  split_and!; [exact Hst|exact Hmode|..];
    apply (fetch_failure_is_local sample_props (sample_card "1") cards
             (sample_card "1") es Hst (or_intror (conj Hmode eq_refl))).
Defined.

(** C7 on the store that holds the row of the scenario in an array. *)
Lemma filterData_store_pure_witness :
  let A := ["id"; "values"] in
  let run1 := Store.filterData (Store.RRef 2) A sample_store in
  let run2 := Store.filterData (Store.RRef 2) A (snd run1) in
  Store.denotes (Store.heap sample_store) (Store.RRef 2)
    (JArr [JObj sample_row]) /\
  Store.denotes (Store.heap (snd run2)) (Store.RRef 2)
    (JArr [JObj sample_row]) /\
  match filterData [JObj sample_row] A with
  | Some outs =>
      exists out1 out2, fst run1 = Some out1 /\ fst run2 = Some out2 /\
        Store.denotes (Store.heap (snd run2)) out1 (JArr outs) /\
        Store.denotes (Store.heap (snd run2)) out2 (JArr outs)
  | None => fst run1 = None /\ fst run2 = None
  end.
Proof.
  intros A run1 run2.
  assert (Store.denotes (Store.heap sample_store) (Store.RRef 2)
            (JArr [JObj sample_row])) as Hd by (by exists 3).
  split; [exact Hd|].
  exact (proj2 (filterData_store_pure (Store.RRef 2) A sample_store)
           [JObj sample_row] Hd).
Defined.

(** ** The scenarios of the specification *)

Example scenario_column :
  filterData (num:=Z)
    [JObj [("id", JStr "c1"); ("name", JStr "Amount");
           ("type", JStr "currency")]]
    ["id"; "name"]
  = Some [JObj [("id", JStr "c1"); ("name", JStr "Amount")]].
Proof. reflexivity. Qed.

Example scenario_row :
  filterData [JObj sample_row] ["id"; "values"]
  = Some [JObj [("id", JStr "r1");
                ("values", JObj [("Date", JStr "2024-01-01")])]].
Proof. reflexivity. Qed.

Example scenario_array_row :
  filterData [JObj sample_array_row] ["id"; "values"]
  = Some [JObj [("id", JStr "r2");
                ("values", JObj [("0", JStr "a"); ("2", JNum 3%Z)])]].
Proof. reflexivity. Qed.

Example scenario_null_item :
  filterData (num:=Z) [JNull] ["id"] = None.
Proof. reflexivity. Qed.

Example scenario_parseInt :
  parseInt10 "1" = LimitNum 1 /\ parseInt10 "0" = LimitNum 0 /\
  parseInt10 " 42px" = LimitNum 42 /\ parseInt10 "-7" = LimitNum (-7) /\
  parseInt10 "All" = LimitNaN.
Proof. by split_and!. Qed.

Example scenario_select_all :
  let tables := [mk_table "t1"; mk_table "t2"; mk_table "t3"] in
  handleSelectAll tables {["t1"; "t2"; "t3"]} = ∅ /\
  handleSelectAll tables ∅ = {["t1"; "t2"; "t3"]}.
Proof.
  intros tables. unfold handleSelectAll, tables. split.
  - rewrite !size_union, !size_singleton by set_solver. by case_decide.
  - rewrite size_empty. case_decide; [done|]. simpl. set_solver.
Qed.

(** ** Further properties of the three components *)

(** X1.  [handleSelectTable] toggles one id: the id is selected afterwards
    exactly when it was not before, every other id is as before, and a
    second toggle of the same id restores the selection. *)
Theorem handleSelectTable_toggles (S : gset string) (i : string) :
  (i ∈ handleSelectTable S i <-> i ∉ S) /\
  (forall j, j <> i -> j ∈ handleSelectTable S i <-> j ∈ S) /\
  handleSelectTable (handleSelectTable S i) i = S.
Proof.
  unfold handleSelectTable. split_and!.
  - case_decide; set_solver.
  - intros j Hj. case_decide; set_solver.
  - destruct (decide (i ∈ S)) as [Hin|Hout].
    + rewrite decide_False by set_solver.
      apply set_eq. intros j. destruct (decide (j = i)); set_solver.
    + rewrite decide_True by set_solver. set_solver.
Qed.

Section FurtherFacts.
Context {num : Type}.
Implicit Types (p : card_props) (c st : card (num:=num)).
Implicit Types (settled : outcome (num:=num)).

Lemma fetchColumns_requests p c settled :
  requests (fetchColumns p c settled)
  = [{| url := "https://coda.io/apis/v1/docs/" +:+ docId p +:+ "/tables/"
               +:+ table_id (table p) +:+ "/columns";
        authorization := "Bearer " +:+ apiToken p;
        params := None |}].
Proof.
  unfold fetchColumns. rewrite !requests_app. simpl. f_equal.
  assert (forall tail, requests (num:=num) tail = [] ->
            requests tail ++ [] = (@nil request)) as Hnil
    by (by intros ? ->).
  apply Hnil. destruct settled as [data|]; [|done].
  destruct (response_items data) as [items|]; [|done].
  pose proof (filterData_console_quiet items (selectedColumnAttributes p))
    as (Hq & _ & _).
  destruct (filterData_console items _) as [logs res]. simpl in Hq.
  rewrite requests_app, Hq. by destruct res.
Qed.

(** X2.  A fetch is never retried: whatever the outcome, [fetchColumns]
    sends exactly one request, and [fetchRows] sends exactly one in the
    modes other than ['0']. *)
Theorem fetch_sends_one_request p c settled :
  length (requests (fetchColumns p c settled)) = 1 /\
  (rowCount c <> "0" -> length (requests (fetchRows p c settled)) = 1).
Proof.
  split.
  - by rewrite fetchColumns_requests.
  - intros Hmode. by rewrite fetchRows_requests.
Qed.

(** X3.  When the row request is fulfilled with an array of items that the
    filter accepts, the stored rows are the filtered items, the stored
    columns are not touched, no error is shown, and the parent receives the
    filtered rows together with the columns of the render that started the
    fetch. *)
Theorem fetchRows_stores_filtered_rows p c st data items filteredRows :
  rowCount c <> "0" ->
  response_items data = Some items ->
  filterData items (selectedRowAttributes p) = Some filteredRows ->
  let st' := run_effects st (fetchRows p c (Fulfilled data)) in
  rows (tableData st') = filteredRows /\
  columns (tableData st') = columns (tableData st) /\
  error_shown st' = false /\
  notifications (fetchRows p c (Fulfilled data))
  = [(table_id (table p),
      {| columns := columns (tableData c); rows := filteredRows |})].
Proof.
  intros Hmode%String.eqb_neq Hitems Hfilter st'. unfold st', fetchRows.
  rewrite Hmode, Hitems.
  pose proof (filterData_console_result items (selectedRowAttributes p))
    as Hres.
  pose proof (filterData_console_quiet items (selectedRowAttributes p))
    as (_ & Hnote & Hrun).
  destruct (filterData_console items _) as [logs res]. simpl in Hres, Hnote, Hrun.
  rewrite Hfilter in Hres. subst res.
  rewrite !run_effects_app, !notifications_app, Hnote, Hrun. by simpl.
Qed.

End FurtherFacts.

(** X4.  The filtered record lists its attributes in the order of the
    input record. *)
Theorem filterData_keeps_attribute_order {num} (r : props num)
    (A : list string) :
  well_formed (JObj r) ->
  exists r', filterData [JObj r] A = Some [JObj r'] /\
             sublist (map fst r') (map fst r).
Proof.
  intros Hwf. exists (spec_filter A r). split.
  - unfold filterData. simpl. by rewrite filterItem_record.
  - unfold spec_filter. clear Hwf.
    induction r as [|[k v] r IH]; simpl; [constructor|].
    destruct (includes A k); simpl; [|by constructor].
    destruct (kept _); simpl; by constructor.
Qed.

Lemma fetchRows_stores_filtered_rows_witness :
  let data := JObj [("items", JArr [JObj sample_row])] in
  let st' := run_effects (sample_card "1")
               (fetchRows sample_props (sample_card "1") (Fulfilled data)) in
  rowCount (sample_card "1") <> "0" /\
  rows (tableData st')
  = [JObj [("id", JStr "r1");
           ("values", JObj [("Date", JStr "2024-01-01")])]] /\
  columns (tableData st') = columns (tableData (sample_card "1")) /\
  error_shown st' = false /\
  notifications (fetchRows sample_props (sample_card "1") (Fulfilled data))
  = [("t1",
      {| columns := [JObj [("id", JStr "c1")]];
         rows := [JObj [("id", JStr "r1");
                        ("values", JObj [("Date", JStr "2024-01-01")])]] |})].
Proof.
  intros data st'.
  assert (rowCount (sample_card "1") <> "0") as Hmode by discriminate.
  split; [exact Hmode|].
  exact (fetchRows_stores_filtered_rows sample_props (sample_card "1")
           (sample_card "1") data [JObj sample_row] _ Hmode eq_refl eq_refl).
Defined.

Lemma fetch_sends_one_request_witness :
  length (requests (fetchColumns sample_props (sample_card "1") Rejected)) = 1
  /\ rowCount (sample_card "1") <> "0"
  /\ length (requests (fetchRows sample_props (sample_card "1") Rejected)) = 1.
Proof.
  assert (rowCount (sample_card "1") <> "0") as Hmode by discriminate.
  pose proof (fetch_sends_one_request sample_props (sample_card "1")
                Rejected) as [Hcolumns Hrows].
  split_and!; [exact Hcolumns|exact Hmode|exact (Hrows Hmode)].
Defined.

Lemma filterData_keeps_attribute_order_witness :
  well_formed (JObj sample_row) /\
  exists r', filterData [JObj sample_row] ["values"; "id"] = Some [JObj r'] /\
             sublist (map fst r') (map fst sample_row).
Proof.
  split; [exact sample_row_well_formed|].
  exact (filterData_keeps_attribute_order sample_row ["values"; "id"]
           sample_row_well_formed).
Defined.

(** ** More on the attribute filter: its results, and filtering them again *)

Section FilterResults.
Context {num : Type}.
Implicit Types (r : props num) (v item out : value num) (A B : list string).

(** What every filtered item is made of. *)
Lemma filterItem_output A item out :
  filterItem A item = Some out ->
  exists r, out = JObj r /\ own_keys_ordered r /\
    Forall (fun p => includes A (fst p) = true /\
                     clean_values p = Some p /\ kept p = true) r.
Proof.
  unfold filterItem.
  destruct (Object_entries item) as [es|]; simpl; [|done].
  destruct (mapM clean_values _) as [cleaned|] eqn:Hc; simpl; [|done].
  intros [= <-]. eexists. split; [done|].
  split; [apply fromEntries_own_keys_ordered|].
  apply fromEntries_Forall, Forall_forall.
  intros q [Hq Hkept]%list_elem_of_In%filter_In.
  apply mapM_Some in Hc.
  assert (exists p0, In p0 (List.filter (fun p => includes A (fst p)) es)
                     /\ clean_values p0 = Some q) as (p0 & Hp0 & Hclean).
  { clear Hkept. induction Hc as [|x y l l' Hxy _ IH]; [done|].
    destruct Hq as [->|Hq]; [exists x; split; [by left|done]|].
    destruct (IH Hq) as (p0 & ? & ?). exists p0. split; [by right|done]. }
  apply filter_In in Hp0 as [_ Hsel]. split_and!; [|by eapply clean_values_fixed|done].
  by rewrite (clean_values_key _ _ Hclean).
Qed.

Lemma filterItem_again A B item out :
  filterItem B item = Some out -> filterItem A out = Some (restrict A out).
Proof.
  intros (r & -> & Hord & Hall)%filterItem_output.
  unfold filterItem. simpl.
  set (r2 := List.filter (fun p => includes A (fst p)) r).
  assert (Forall (fun p => clean_values p = Some p /\ kept p = true) r2)
    as Hr2.
  { apply Forall_forall. intros p [Hp _]%list_elem_of_In%filter_In.
    apply list_elem_of_In in Hp.
    by destruct (proj1 (Forall_forall _ _) Hall p Hp) as (_ & ? & ?). }
  replace (mapM clean_values r2) with (Some r2).
  - simpl. rewrite filter_all_true
      by (eapply Forall_impl; [exact Hr2|]; by intros p [_ ?]).
    by rewrite fromEntries_ordered by by apply filter_own_keys_ordered.
  - symmetry. apply mapM_Some, Forall_Forall2_diag.
    eapply Forall_impl; [exact Hr2|]. by intros p [? _].
Qed.

Lemma filterData_again A B (data out : list (value num)) :
  filterData data B = Some out ->
  filterData out A = Some (map (restrict A) out).
Proof.
  unfold filterData. intros H%mapM_Some. apply mapM_Some.
  induction H as [|x y l l' Hxy _ IH]; simpl; constructor; [|done].
  by eapply filterItem_again.
Qed.

(** X5.  Filtering filtered data again, with any allow-list, throws
    nothing and changes no value: every record keeps exactly its
    attributes named in the new list, as they are, in the same order. *)
Theorem filterData_again_only_selects A B (data out : list (value num)) :
  filterData data B = Some out ->
  filterData out A = Some (map (restrict A) out) /\
  Forall (fun v => exists r, v = JObj r) out.
Proof.
  intros H. split; [by eapply filterData_again|].
  unfold filterData in H. apply mapM_Some in H.
  induction H as [|x y l l' Hxy _ IH]; constructor; [|done].
  apply filterItem_output in Hxy as (r & -> & _). by exists r.
Qed.

Lemma filterItem_None A item :
  filterItem A item = None <-> item = JNull \/ item = JUndefined.
Proof.
  unfold filterItem. split.
  - destruct (Object_entries item) as [es|] eqn:He; simpl.
    + destruct (mapM clean_values _) eqn:Hc; simpl; [done|]. intros _.
      apply mapM_None, Exists_exists in Hc as (kv & _ & Hkv).
      destruct (clean_values_total kv) as [? Hsome]. congruence.
    + intros _. destruct item; simpl in He; auto; done.
  - by intros [->| ->].
Qed.

(** X7.  The filter throws exactly when one of the items is null or
    undefined; every other item, a record or not, is filtered. *)
Theorem filterData_throws_iff A (data : list (value num)) :
  filterData data A = None <->
  Exists (fun item => item = JNull \/ item = JUndefined) data.
Proof.
  unfold filterData. rewrite mapM_None. split; intros H;
    (eapply Exists_impl; [exact H|]); intros item; apply filterItem_None.
Qed.

(** X8.  Whatever the items, each filtered item is an object whose keys are
    pairwise distinct, in own-key order and all in the allow-list, and none
    of whose values is null, the empty string or undefined; its [values],
    when present, is never an array, and when it is an object none of its
    entries is the empty string.  There is one filtered item per item. *)
Theorem filterData_output_shape A (data out : list (value num)) :
  filterData data A = Some out ->
  length out = length data /\
  Forall (fun v => exists r, v = JObj r /\ own_keys_ordered r /\
    Forall (fun p => In (fst p) A /\ snd p <> JNull /\ snd p <> JStr ""
                     /\ snd p <> JUndefined) r /\
    forall v', get_prop "values" r = Some v' ->
      (forall l, v' <> JArr l) /\
      (forall o, v' = JObj o ->
         own_keys_ordered o /\ Forall (fun q => snd q <> JStr "") o)) out.
Proof.
  unfold filterData. intros H. split; [symmetry; by eapply length_mapM|].
  apply mapM_Some in H.
  induction H as [|x y l l' Hxy _ IH]; constructor; [|done].
  apply filterItem_output in Hxy as (r & -> & Hord & Hall).
  exists r. split_and!; [done|done| |].
  - eapply Forall_impl; [exact Hall|]. intros p (Hsel & _ & Hkept).
    apply includes_In in Hsel. by apply kept_true in Hkept.
  - intros v' Hget.
    apply get_prop_In in Hget; [|by apply own_keys_ordered_NoDup].
    apply list_elem_of_In in Hget.
    destruct (proj1 (Forall_forall _ _) Hall _ Hget) as (_ & Hfix & _).
    unfold clean_values in Hfix. simpl in Hfix. split.
    + intros elems ->. simpl in Hfix. done.
    + intros o ->. simpl in Hfix. injection Hfix as Ho.
      rewrite <- Ho. split; [apply fromEntries_own_keys_ordered|].
      apply fromEntries_Forall, Forall_forall.
      intros q [_ Hq]%list_elem_of_In%filter_In.
      apply negb_true_iff in Hq. intros Heq. rewrite Heq in Hq. done.
Qed.

Lemma includes_filter A B k :
  includes (List.filter (includes B) A) k = includes A k && includes B k.
Proof.
  apply eq_true_iff_eq.
  by rewrite andb_true_iff, !includes_In, filter_In, includes_In.
Qed.

Lemma restrict_spec_filter A B r :
  List.filter (fun p => includes A (fst p)) (spec_filter B r)
  = spec_filter (List.filter (includes B) A) r.
Proof.
  unfold spec_filter. induction r as [|[k v] r IH]; [done|].
  cbn [List.filter map fst snd]. rewrite includes_filter.
  destruct (includes B k) eqn:HB, (includes A k) eqn:HA;
    cbn [andb List.filter map fst snd]; try exact IH.
  - destruct (kept (k, spec_cleanup k v)); cbn [List.filter fst snd];
      rewrite ?HA; [by rewrite IH|exact IH].
  - destruct (kept (k, spec_cleanup k v)); cbn [List.filter fst snd];
      rewrite ?HA; exact IH.
Qed.

Lemma spec_filter_ext A B r :
  (forall k, includes A k = includes B k) -> spec_filter A r = spec_filter B r.
Proof.
  intros H. unfold spec_filter. do 2 f_equal.
  induction r as [|[k v] r IH]; simpl; [done|]. by rewrite H, IH.
Qed.

Lemma filterData_records A (rs : list (props num)) :
  Forall (fun r => well_formed (JObj r)) rs ->
  filterData (map JObj rs) A
  = Some (map (fun r => JObj (spec_filter A r)) rs).
Proof.
  intros H. unfold filterData. apply mapM_Some.
  induction H as [|r rs Hr _ IH]; simpl; constructor; [|done].
  by apply filterItem_record.
Qed.

(** X6.  On records, filtering with [B] and then with [A] is filtering
    once with the names of [A] that are in [B]; so the two orders give the
    same result. *)
Theorem filterData_compose A B (rs : list (props num)) :
  Forall (fun r => well_formed (JObj r)) rs ->
  exists outB outA,
    filterData (map JObj rs) B = Some outB /\
    filterData (map JObj rs) A = Some outA /\
    filterData outB A
    = filterData (map JObj rs) (List.filter (includes B) A) /\
    filterData outA B = filterData outB A.
Proof.
  intros Hwf. eexists _, _.
  split; [by apply filterData_records|].
  split; [by apply filterData_records|].
  rewrite (filterData_again A B _ _ (filterData_records B rs Hwf)).
  rewrite (filterData_again B A _ _ (filterData_records A rs Hwf)).
  rewrite (filterData_records _ rs Hwf), !map_map. simpl.
  split; f_equal; apply map_ext; intros r; f_equal.
  - apply restrict_spec_filter.
  - rewrite !restrict_spec_filter. apply spec_filter_ext. intros k.
    rewrite !includes_filter. apply andb_comm.
Qed.

End FilterResults.

(** ** More on the fetcher: every outcome of a fetch *)

Section FetchOutcomes.
Context {num : Type}.
Local Abbreviation card := (card (num:=num)).
Local Abbreviation outcome := (outcome (num:=num)).
Implicit Types (p : card_props) (c st : card) (settled : outcome).

(** The state a failed fetch leaves, and the one a successful fetch of
    columns or of rows leaves. *)
Lemma fetchColumns_failed p c st settled :
  fetch_fails (selectedColumnAttributes p) settled ->
  run_effects st (fetchColumns p c settled)
  = {| rowCount := rowCount st; tableData := tableData st;
       isExpanded := isExpanded st; isLoading := false;
       error := columns_error |} /\
  notifications (fetchColumns p c settled) = [].
Proof.
  unfold fetch_fails, fetchColumns. destruct settled as [data|]; [|done].
  destruct (response_items data) as [items|]; [|done].
  pose proof (filterData_console_result items (selectedColumnAttributes p))
    as Hres.
  pose proof (filterData_console_quiet items (selectedColumnAttributes p))
    as (_ & Hnote & Hrun).
  destruct (filterData_console items _) as [logs res].
  simpl in Hres, Hnote, Hrun. intros Hnone. rewrite Hnone in Hres. subst res.
  by rewrite !run_effects_app, !notifications_app, Hnote, Hrun.
Qed.

Lemma fetchRows_failed p c st settled :
  rowCount c <> "0" ->
  fetch_fails (selectedRowAttributes p) settled ->
  run_effects st (fetchRows p c settled)
  = {| rowCount := rowCount st; tableData := tableData st;
       isExpanded := isExpanded st; isLoading := false;
       error := rows_error |} /\
  notifications (fetchRows p c settled) = [].
Proof.
  intros Hmode%String.eqb_neq. unfold fetch_fails, fetchRows. rewrite Hmode.
  destruct settled as [data|]; [|done].
  destruct (response_items data) as [items|]; [|done].
  pose proof (filterData_console_result items (selectedRowAttributes p))
    as Hres.
  pose proof (filterData_console_quiet items (selectedRowAttributes p))
    as (_ & Hnote & Hrun).
  destruct (filterData_console items _) as [logs res].
  simpl in Hres, Hnote, Hrun. intros Hnone. rewrite Hnone in Hres. subst res.
  by rewrite !run_effects_app, !notifications_app, Hnote, Hrun.
Qed.

Lemma fetchColumns_fulfilled p c st data items filteredColumns :
  response_items data = Some items ->
  filterData items (selectedColumnAttributes p) = Some filteredColumns ->
  run_effects st (fetchColumns p c (Fulfilled data))
  = {| rowCount := rowCount st;
       tableData := {| columns := filteredColumns;
                       rows := rows (tableData st) |};
       isExpanded := isExpanded st; isLoading := false; error := "" |} /\
  notifications (fetchColumns p c (Fulfilled data))
  = [(table_id (table p),
      {| columns := filteredColumns; rows := rows (tableData c) |})].
Proof.
  intros Hitems Hfilter. unfold fetchColumns. rewrite Hitems.
  pose proof (filterData_console_result items (selectedColumnAttributes p))
    as Hres.
  pose proof (filterData_console_quiet items (selectedColumnAttributes p))
    as (_ & Hnote & Hrun).
  destruct (filterData_console items _) as [logs res].
  simpl in Hres, Hnote, Hrun. rewrite Hfilter in Hres. subst res.
  by rewrite !run_effects_app, !notifications_app, Hnote, Hrun.
Qed.

Lemma fetchRows_fulfilled p c st data items filteredRows :
  rowCount c <> "0" ->
  response_items data = Some items ->
  filterData items (selectedRowAttributes p) = Some filteredRows ->
  run_effects st (fetchRows p c (Fulfilled data))
  = {| rowCount := rowCount st;
       tableData := {| columns := columns (tableData st);
                       rows := filteredRows |};
       isExpanded := isExpanded st; isLoading := false; error := "" |}.
Proof.
  intros Hmode%String.eqb_neq Hitems Hfilter. unfold fetchRows.
  rewrite Hmode, Hitems.
  pose proof (filterData_console_result items (selectedRowAttributes p))
    as Hres.
  pose proof (filterData_console_quiet items (selectedRowAttributes p))
    as (_ & _ & Hrun).
  destruct (filterData_console items _) as [logs res].
  simpl in Hres, Hrun. rewrite Hfilter in Hres. subst res.
  by rewrite !run_effects_app, Hrun.
Qed.

Lemma fetch_fails_or_not A settled :
  fetch_fails A settled \/
  exists data items filtered, settled = Fulfilled data /\
    response_items data = Some items /\ filterData items A = Some filtered.
Proof.
  unfold fetch_fails. destruct settled as [data|]; [|by left].
  destruct (response_items data) as [items|] eqn:Hitems; [|by left].
  destruct (filterData items A) as [filtered|] eqn:Hf; [|by left].
  right. by exists data, items, filtered.
Qed.

(** X9.  When the column request is fulfilled with an array of items that
    the filter accepts, the stored columns are the filtered items, the
    stored rows are not touched, any earlier error is cleared, the card is
    no longer loading, and the parent receives the filtered columns
    together with the rows of the render that started the fetch. *)
Theorem fetchColumns_stores_filtered_columns p c st data items
    filteredColumns :
  response_items data = Some items ->
  filterData items (selectedColumnAttributes p) = Some filteredColumns ->
  let st' := run_effects st (fetchColumns p c (Fulfilled data)) in
  columns (tableData st') = filteredColumns /\
  rows (tableData st') = rows (tableData st) /\
  error_shown st' = false /\ isLoading st' = false /\
  notifications (fetchColumns p c (Fulfilled data))
  = [(table_id (table p),
      {| columns := filteredColumns; rows := rows (tableData c) |})].
Proof.
  intros Hitems Hfilter st'. unfold st'.
  destruct (fetchColumns_fulfilled p c st _ _ _ Hitems Hfilter) as [-> ->].
  done.
Qed.

(** X10.  However a fetch ends, the card is no longer loading and its row
    mode and preview toggle are as before.  It shows an error exactly when
    the fetch failed: the request was rejected, or the response has no
    array of items, or an item is null; then the stored data is unchanged
    and the parent is not notified.  Fetching rows in mode ['0'] never
    fails. *)
Theorem fetch_error_iff_failed p c st settled :
  let afterColumns := run_effects st (fetchColumns p c settled) in
  let afterRows := run_effects st (fetchRows p c settled) in
  (isLoading afterColumns = false /\ rowCount afterColumns = rowCount st /\
   isExpanded afterColumns = isExpanded st /\
   (error_shown afterColumns = true <->
    fetch_fails (selectedColumnAttributes p) settled) /\
   (fetch_fails (selectedColumnAttributes p) settled ->
    tableData afterColumns = tableData st /\
    notifications (fetchColumns p c settled) = [])) /\
  (isLoading afterRows = false /\ rowCount afterRows = rowCount st /\
   isExpanded afterRows = isExpanded st /\
   (error_shown afterRows = true <->
    rowCount c <> "0" /\ fetch_fails (selectedRowAttributes p) settled) /\
   (rowCount c <> "0" -> fetch_fails (selectedRowAttributes p) settled ->
    tableData afterRows = tableData st /\
    notifications (fetchRows p c settled) = [])).
Proof.
  intros afterColumns afterRows. split.
  - unfold afterColumns.
    destruct (fetch_fails_or_not (selectedColumnAttributes p) settled)
      as [Hfail|(data & items & filtered & -> & Hitems & Hfilter)].
    + destruct (fetchColumns_failed p c st settled Hfail) as [-> ->].
      by split_and!.
    + destruct (fetchColumns_fulfilled p c st _ _ _ Hitems Hfilter)
        as [-> _].
      split_and!; try done; unfold fetch_fails; rewrite Hitems, Hfilter;
        done.
  - unfold afterRows. destruct (String.eqb_spec (rowCount c) "0") as [H0|H0].
    + unfold fetchRows. rewrite H0. simpl. split_and!; try done.
      split; [done|]. by intros [? _].
    + destruct (fetch_fails_or_not (selectedRowAttributes p) settled)
        as [Hfail|(data & items & filtered & -> & Hitems & Hfilter)].
      * destruct (fetchRows_failed p c st settled H0 Hfail) as [-> ->].
        by split_and!.
      * rewrite (fetchRows_fulfilled p c st _ _ _ H0 Hitems Hfilter).
        split_and!; try done; unfold fetch_fails; rewrite Hitems, Hfilter.
        -- split; [done|]. by intros [_ ?].
        -- done.
Qed.

End FetchOutcomes.

(** ** The states a card can reach *)

Section CardStates.
Context {num : Type}.
Local Abbreviation card := (card (num:=num)).
Local Abbreviation outcome := (outcome (num:=num)).
Local Abbreviation effect := (effect (num:=num)).
Implicit Types (p : card_props) (c st : card) (settled : outcome).

(** The console output of the filter is console output only. *)
Lemma filterData_console_logs (data : list (value num)) A :
  Forall (fun e : effect => exists msg arg, e = ConsoleLog msg arg)
    (fst (filterData_console data A)).
Proof.
  induction data as [|item rest IH]; simpl; [constructor|].
  destruct (filterItem A item) as [filteredItem|]; simpl.
  - destruct (filterData_console rest A) as [logs res]. simpl in *.
    repeat (constructor; [by eexists _, _|]). done.
  - repeat constructor. by eexists _, _.
Qed.

(** The values the two fetch effects hand to [setTableData]. *)
Lemma fetchColumns_setters p c settled (e : effect) :
  In e (fetchColumns p c settled) ->
  match e with
  | SetTableDataColumns x =>
      exists items, filterData items (selectedColumnAttributes p) = Some x
  | SetTableDataRows _ => False
  | _ => True
  end.
Proof.
  unfold fetchColumns. rewrite !in_app_iff. simpl.
  intros [H|[H|[H|H]]].
  1,2,4: by destruct H as [<-|[<-|[]]] || destruct H as [<-|[]].
  assert (forall x : effect,
            In x [ConsoleError ("Error fetching columns for table "
                                +:+ table_id (table p) +:+ ":");
                  SetError columns_error] ->
            match x with
            | SetTableDataColumns _ | SetTableDataRows _ => False
            | _ => True
            end) as Hcatch by (by intros x [<-|[<-|[]]]).
  destruct settled as [data|]; [|by apply Hcatch in H; destruct e].
  destruct (response_items data) as [items|];
    [|by apply Hcatch in H; destruct e].
  pose proof (filterData_console_result items (selectedColumnAttributes p))
    as Hres.
  pose proof (filterData_console_logs items (selectedColumnAttributes p))
    as Hlogs.
  destruct (filterData_console items _) as [logs res]. simpl in Hres, Hlogs.
  apply in_app_iff in H as [H|H].
  - apply list_elem_of_In in H.
    by destruct (proj1 (Forall_forall _ _) Hlogs e H) as (? & ? & ->).
  - destruct res as [filteredColumns|];
      [|by apply Hcatch in H; destruct e].
    destruct H as [<-|[<-|[]]]; [|done]. by exists items.
Qed.

Lemma fetchRows_setters p c settled (e : effect) :
  In e (fetchRows p c settled) ->
  match e with
  | SetTableDataRows x =>
      x = [] \/
      exists items, filterData items (selectedRowAttributes p) = Some x
  | SetTableDataColumns _ => False
  | _ => True
  end.
Proof.
  unfold fetchRows. rewrite !in_app_iff. simpl.
  intros [H|[H|H]].
  1,3: by destruct H as [<-|[<-|[]]] || destruct H as [<-|[]].
  destruct (String.eqb (rowCount c) "0").
  { destruct H as [<-|[<-|[]]]; [by left|done]. }
  destruct H as [<-|[<-|H]]; [done|done|].
  assert (forall x : effect,
            In x [ConsoleError ("Error fetching rows for table "
                                +:+ table_id (table p) +:+ ":");
                  SetError rows_error] ->
            match x with
            | SetTableDataColumns _ | SetTableDataRows _ => False
            | _ => True
            end) as Hcatch by (by intros x [<-|[<-|[]]]).
  destruct settled as [data|]; [|by apply Hcatch in H; destruct e].
  destruct (response_items data) as [items|];
    [|by apply Hcatch in H; destruct e].
  pose proof (filterData_console_result items (selectedRowAttributes p))
    as Hres.
  pose proof (filterData_console_logs items (selectedRowAttributes p))
    as Hlogs.
  destruct (filterData_console items _) as [logs res]. simpl in Hres, Hlogs.
  apply in_app_iff in H as [H|H].
  - apply list_elem_of_In in H.
    by destruct (proj1 (Forall_forall _ _) Hlogs e H) as (? & ? & ->).
  - destruct res as [filteredRows|];
      [|by apply Hcatch in H; destruct e].
    destruct H as [<-|[<-|[]]]; [|done]. right. by exists items.
Qed.

Lemma filterData_filter_results A (data out : list (value num)) :
  filterData data A = Some out -> Forall filter_result out.
Proof.
  unfold filterData. intros H%mapM_Some.
  induction H as [|x y l l' Hxy _ IH]; constructor; [|done].
  by exists A, x.
Qed.

Lemma filterData_of_filter_results A (l : list (value num)) :
  Forall filter_result l -> filterData l A = Some (map (restrict A) l).
Proof.
  intros H. unfold filterData. apply mapM_Some.
  induction H as [|v l (B & item & Hv) _ IH]; simpl; constructor; [|done].
  by eapply filterItem_again.
Qed.

(** What every reachable state satisfies: the stored columns and rows are
    results of the filter, and the row mode is the value of a row option. *)
Lemma reachable_invariant st :
  reachable st ->
  Forall filter_result (columns (tableData st)) /\
  Forall filter_result (rows (tableData st)) /\
  In (rowCount st) ["0"; "1"; "All"].
Proof.
  induction 1 as [|st c p settled e _ IH _ _ He|st c p settled e _ IH _ _ He
                  |st o _ IH Ho|st _ IH].
  - split_and!; [constructor|constructor|]. right. by left.
  - apply fetchColumns_setters in He. destruct IH as (Hc & Hr & Hm).
    destruct e; simpl; try done.
    destruct He as [items He]. split_and!; try done.
    by eapply filterData_filter_results.
  - apply fetchRows_setters in He. destruct IH as (Hc & Hr & Hm).
    destruct e; simpl; try done.
    destruct He as [->|[items He]]; split_and!; try done.
    by eapply filterData_filter_results.
  - destruct IH as (Hc & Hr & _). split_and!; [done|done|].
    simpl in *. destruct Ho as [<-|[<-|[<-|[]]]]; simpl; auto.
  - done.
Qed.

(** X11.  In every state a card can reach, and for every attribute lists
    of the props, the preview and the copy action throw nothing: what they
    build is the stored columns and rows, each record cut down to the
    attributes currently selected, with every value as stored.  Copying
    writes that object to the clipboard and then raises the alert. *)
Theorem reachable_preview_and_copy st p :
  reachable st ->
  let shown :=
    {| columns := map (restrict (selectedColumnAttributes p))
                    (columns (tableData st));
       rows := map (restrict (selectedRowAttributes p))
                 (rows (tableData st)) |} in
  filteredData p st = Some shown /\
  handleCopyTableData p st
  = Some [ClipboardWriteJSON shown; Alert "Table data copied to clipboard!"]
  /\
  exists view, render p st = Some view /\
    (isExpanded st = true -> isLoading st = false ->
     view_preview view = PreviewJSON shown).
Proof.
  intros (Hc & Hr & _)%reachable_invariant shown.
  assert (filteredData p st = Some shown) as Hshown.
  { unfold filteredData.
    rewrite (filterData_of_filter_results _ _ Hc). simpl.
    by rewrite (filterData_of_filter_results _ _ Hr). }
  split_and!; [done|unfold handleCopyTableData; by rewrite Hshown|].
  unfold render. rewrite Hshown.
  destruct (isExpanded st), (isLoading st); simpl; eexists; split; done.
Qed.

(** X12.  In every state a card can reach the row mode is ['0'], ['1'] or
    ['All']: a row request started from it asks for a limit of 1 or for no
    limit (never for 0 and never for NaN), and a render highlights exactly
    one of the three row options. *)
Theorem reachable_row_mode c p settled :
  reachable c ->
  In (rowCount c) ["0"; "1"; "All"] /\
  Forall (fun r =>
            query_params r
            = [("limit", "1"); ("valueFormat", "simpleWithArrays")] \/
            query_params r = [("valueFormat", "simpleWithArrays")])
    (requests (fetchRows p c settled)) /\
  forall view, render p c = Some view ->
    length (List.filter snd (view_options view)) = 1.
Proof.
  intros (_ & _ & Hmode)%reachable_invariant. split; [done|]. split.
  - destruct Hmode as [H|[H|[H|[]]]].
    + unfold fetchRows. rewrite <- H. simpl. constructor.
    + rewrite fetchRows_requests by (by rewrite <- H). rewrite <- H.
      constructor; [by left|constructor].
    + rewrite fetchRows_requests by (by rewrite <- H). rewrite <- H.
      constructor; [by right|constructor].
  - intros view. unfold render.
    destruct (if isExpanded c then _ else _) as [preview|]; simpl; [|done].
    intros [= <-]. simpl.
    by destruct Hmode as [<-|[<-|[<-|[]]]].
Qed.

End CardStates.

(** ** The controls of the table list view *)

(** X13.  After a press on the select-all button the button reads
    [Deselect All] exactly when it read [Deselect All] before and there is
    no table at all, or it read [Select All] before and no id is listed
    twice.  So with at least one table and distinct ids, every press
    changes the label. *)
Theorem selectAllLabel_after_press (tables : list Table) (S : gset string) :
  (selectAllLabel tables (handleSelectAll tables S) = "Deselect All" <->
   (selectAllLabel tables S = "Deselect All" /\ tables = []) \/
   (selectAllLabel tables S = "Select All" /\ NoDup (table_ids tables))) /\
  (tables <> [] -> NoDup (table_ids tables) ->
   selectAllLabel tables (handleSelectAll tables S)
   <> selectAllLabel tables S).
Proof.
  pose proof (size_list_to_set_NoDup (table_ids tables)) as Hnd.
  assert (length (table_ids tables) = length tables) as Hlen
    by (unfold table_ids; by rewrite length_map).
  rewrite Hlen in Hnd.
  assert (length tables = 0 <-> tables = []) as Hnil
    by (destruct tables; split; done).
  unfold selectAllLabel, handleSelectAll.
  destruct (decide (size S = length tables)) as [HS|HS].
  - rewrite size_empty.
    destruct (decide (0 = length tables)) as [H0|H0]; split.
    + split; [|done]. intros _. left. split; [done|]. by apply Hnil.
    + intros Hne. destruct Hne. by apply Hnil.
    + split; [done|]. intros [[_ ->]|[? _]]; done.
    + done.
  - destruct (decide (size (list_to_set (table_ids tables) : gset string)
                      = length tables)) as [HA|HA]; split.
    + split; [|done]. intros _. right. split; [done|]. by apply Hnd.
    + done.
    + split; [done|]. intros [[? _]|[_ Hno]]; [done|]. by apply Hnd in Hno.
    + intros _ Hno. by apply Hnd in Hno.
Qed.

(** X14.  The selection holds only ids of listed tables for as long as the
    user ticks the checkboxes of the rows and presses select-all; and then,
    when no id is listed twice, select-all does what the specification
    says and the button reads [Deselect All] exactly when every table is
    selected. *)
Theorem selection_stays_within_tables (tables : list Table)
    (S : gset string) (actions : list list_action) :
  S ⊆ list_to_set (table_ids tables) ->
  Forall (action_of_view tables) actions ->
  let S' := fold_left (list_step tables) actions S in
  S' ⊆ list_to_set (table_ids tables) /\
  (NoDup (table_ids tables) ->
   handleSelectAll tables S' = spec_selectAll S' (table_ids tables) /\
   (selectAllLabel tables S' = "Deselect All" <->
    S' = list_to_set (table_ids tables))).
Proof.
  intros HS Hacts S'.
  assert (S' ⊆ list_to_set (table_ids tables)) as Hsub.
  { unfold S'. clear S'. revert S HS.
    induction Hacts as [|a actions Ha _ IH]; intros S HS; simpl; [done|].
    apply IH. destruct a as [i|]; simpl in *.
    - assert (i ∈ (list_to_set (table_ids tables) : gset string))
        by (by apply elem_of_list_to_set, list_elem_of_In).
      unfold handleSelectTable. case_decide; set_solver.
    - unfold handleSelectAll. case_decide; set_solver. }
  split; [done|]. intros Hnd.
  pose proof (size_eq_all_selected tables S' Hnd Hsub) as Hiff.
  unfold handleSelectAll, spec_selectAll, selectAllLabel.
  destruct (decide (size S' = length tables)) as [Hs|Hs],
    (decide (S' = list_to_set (table_ids tables))) as [He|He];
    try tauto.
  split; [done|]. split; [done|tauto].
Qed.

(** X15.  Ticking or unticking one checkbox changes the number of selected
    tables by exactly one, and the order in which two checkboxes are
    changed does not matter. *)
Theorem handleSelectTable_size_and_order (S : gset string) (i j : string) :
  size (handleSelectTable S i)
  = (if decide (i ∈ S) then size S - 1 else size S + 1) /\
  handleSelectTable (handleSelectTable S i) j
  = handleSelectTable (handleSelectTable S j) i.
Proof.
  split.
  - unfold handleSelectTable. case_decide as Hi.
    + rewrite size_difference by set_solver. by rewrite size_singleton.
    + rewrite size_union by set_solver. by rewrite size_singleton.
  - apply set_eq. intros x. unfold handleSelectTable.
    destruct (decide (i = j)) as [->|Hij]; [done|].
    destruct (decide (i ∈ S)), (decide (j ∈ S));
      repeat case_decide; set_solver.
Qed.


(** ** The further properties on sample data *)

(** X5 on the filtered row of the scenario, filtered again with [id]. *)
Lemma filterData_again_only_selects_witness :
  filterData [JObj sample_row] ["id"; "values"]
  = Some [JObj sample_filtered_row] /\
  filterData [JObj sample_filtered_row] ["id"]
  = Some [JObj [("id", JStr "r1")]] /\
  Forall (fun v => exists r, v = JObj r) [JObj sample_filtered_row].
Proof.
  split; [reflexivity|].
  exact (filterData_again_only_selects ["id"] ["id"; "values"]
           [JObj sample_row] [JObj sample_filtered_row] eq_refl).
Defined.

(** X6 on the row of the scenario, with the lists [id] and [id, values]. *)
Lemma filterData_compose_witness :
  Forall (fun r => well_formed (JObj r)) [sample_row] /\
  exists outB outA,
    filterData (map JObj [sample_row]) ["id"; "values"] = Some outB /\
    filterData (map JObj [sample_row]) ["id"] = Some outA /\
    filterData outB ["id"]
    = filterData (map JObj [sample_row])
        (List.filter (includes ["id"; "values"]) ["id"]) /\
    filterData outA ["id"; "values"] = filterData outB ["id"].
Proof.
  assert (Forall (fun r => well_formed (JObj r)) [sample_row]) as Hwf
    by (constructor; [exact sample_row_well_formed|constructor]).
  split; [exact Hwf|].
  exact (filterData_compose ["id"] ["id"; "values"] [sample_row] Hwf).
Defined.

(** X8 on the row of the scenario. *)
Lemma filterData_output_shape_witness :
  filterData [JObj sample_row] ["id"; "values"]
  = Some [JObj sample_filtered_row] /\
  length [JObj sample_filtered_row] = length [JObj sample_row] /\
  Forall (fun v => exists r, v = JObj r /\ own_keys_ordered r /\
    Forall (fun p => In (fst p) ["id"; "values"] /\ snd p <> JNull
                     /\ snd p <> JStr "" /\ snd p <> JUndefined) r /\
    forall v', get_prop "values" r = Some v' ->
      (forall l, v' <> JArr l) /\
      (forall o, v' = JObj o ->
         own_keys_ordered o /\ Forall (fun q => snd q <> JStr "") o))
    [JObj sample_filtered_row].
Proof.
  split; [reflexivity|].
  exact (filterData_output_shape ["id"; "values"] [JObj sample_row]
           [JObj sample_filtered_row] eq_refl).
Defined.

(** X9 on a fulfilled column request of the card of table [t1]. *)
Lemma fetchColumns_stores_filtered_columns_witness :
  let st' := run_effects (sample_card "1")
               (fetchColumns sample_props (sample_card "1")
                  (Fulfilled sample_columns_response)) in
  response_items sample_columns_response
  = Some [JObj [("id", JStr "c1"); ("type", JStr "text")]] /\
  filterData [JObj [("id", JStr "c1"); ("type", JStr (num:=Z) "text")]]
    (selectedColumnAttributes sample_props)
  = Some [JObj [("id", JStr "c1")]] /\
  columns (tableData st') = [JObj [("id", JStr "c1")]] /\
  rows (tableData st') = rows (tableData (sample_card "1")) /\
  error_shown st' = false /\ isLoading st' = false /\
  notifications (fetchColumns sample_props (sample_card "1")
                   (Fulfilled sample_columns_response))
  = [("t1", {| columns := [JObj [("id", JStr "c1")]];
               rows := [JObj sample_row] |})].
Proof.
  intros st'. split; [reflexivity|]. split; [reflexivity|].
  exact (fetchColumns_stores_filtered_columns sample_props (sample_card "1")
           (sample_card "1") sample_columns_response _ _ eq_refl eq_refl).
Defined.

(** X10 on a rejected row request of the card of table [t1]. *)
Lemma fetch_error_iff_failed_witness :
  let afterRows := run_effects (sample_card "1")
                     (fetchRows sample_props (sample_card "1") Rejected) in
  rowCount (sample_card "1") <> "0" /\
  fetch_fails (num:=Z) (selectedRowAttributes sample_props) Rejected /\
  isLoading afterRows = false /\ error_shown afterRows = true /\
  tableData afterRows = tableData (sample_card "1") /\
  notifications (fetchRows sample_props (sample_card "1") Rejected) = [].
Proof.
  intros afterRows.
  assert (rowCount (sample_card "1") <> "0") as Hmode by discriminate.
  pose proof (proj2 (fetch_error_iff_failed sample_props (sample_card "1")
                       (sample_card "1") Rejected))
    as (Hload & _ & _ & Herr & Hdata).
  destruct (Hdata Hmode I) as [Hsame Hnote].
  split_and!; [exact Hmode|exact I|exact Hload| |exact Hsame|exact Hnote].
  apply Herr. split; [exact Hmode|exact I].
Defined.

(** The state of a card after the rows of the scenario arrived and the
    preview was opened. *)
Lemma sample_reachable :
  reachable (togglePreview
               (apply_effect initial_card
                  (SetTableDataRows [JObj sample_filtered_row]))).
Proof.
  apply reachable_togglePreview.
  apply (reachable_fetchRows initial_card initial_card sample_props
           (Fulfilled sample_rows_response));
    [apply reachable_initial|apply reachable_initial|].
  simpl. do 6 right. by left.
Qed.

(** X11 on that state, with the props that select only [id] for rows. *)
Lemma reachable_preview_and_copy_witness :
  let st := togglePreview
              (apply_effect initial_card
                 (SetTableDataRows [JObj sample_filtered_row])) in
  let p := {| table := mk_table "t1"; apiToken := "token"; docId := "doc";
              selectedColumnAttributes := ["id"; "name"];
              selectedRowAttributes := ["id"] |} in
  let shown := {| columns := []; rows := [JObj [("id", JStr "r1")]] |} in
  reachable st /\
  filteredData p st = Some shown /\
  handleCopyTableData p st
  = Some [ClipboardWriteJSON shown; Alert "Table data copied to clipboard!"]
  /\
  exists view, render p st = Some view /\
    (isExpanded st = true -> isLoading st = false ->
     view_preview view = PreviewJSON shown).
Proof.
  intros st p shown. split; [exact sample_reachable|].
  exact (reachable_preview_and_copy st p sample_reachable).
Defined.

(** X12 on the initial card after a click on [All Rows]. *)
Lemma reachable_row_mode_witness :
  let c := selectRowOption all_rows_option (initial_card (num:=Z)) in
  reachable c /\
  In (rowCount c) ["0"; "1"; "All"] /\
  Forall (fun r =>
            query_params r
            = [("limit", "1"); ("valueFormat", "simpleWithArrays")] \/
            query_params r = [("valueFormat", "simpleWithArrays")])
    (requests (fetchRows sample_props c Rejected)) /\
  forall view, render sample_props c = Some view ->
    length (List.filter snd (view_options view)) = 1.
Proof.
  intros c.
  assert (reachable c) as Hc.
  { apply reachable_selectRowOption; [apply reachable_initial|].
    simpl. do 2 right. by left. }
  split; [exact Hc|].
  exact (reachable_row_mode c sample_props Rejected Hc).
Defined.

(** X14 with the tables [a] and [b]: tick [a], then press select-all. *)
Lemma selection_stays_within_tables_witness :
  let tables := [mk_table "a"; mk_table "b"] in
  let actions := [ToggleTable "a"; PressSelectAll] in
  let S' := fold_left (list_step tables) actions ∅ in
  (∅ : gset string) ⊆ list_to_set (table_ids tables) /\
  Forall (action_of_view tables) actions /\
  NoDup (table_ids tables) /\
  S' ⊆ list_to_set (table_ids tables) /\
  handleSelectAll tables S' = spec_selectAll S' (table_ids tables) /\
  (selectAllLabel tables S' = "Deselect All" <->
   S' = list_to_set (table_ids tables)).
Proof.
  intros tables actions S'.
  assert ((∅ : gset string) ⊆ list_to_set (table_ids tables)) as Hsub
    by set_solver.
  assert (Forall (action_of_view tables) actions) as Hacts
    by (repeat constructor).
  assert (NoDup (table_ids tables)) as Hnd
    by (simpl; repeat constructor; set_solver).
  pose proof (selection_stays_within_tables tables ∅ actions Hsub Hacts)
    as [Hin Hspec].
  destruct (Hspec Hnd) as [Hall Hlabel].
  split_and!; [exact Hsub|exact Hacts|exact Hnd|exact Hin|exact Hall
              |exact Hlabel].
Defined.


(** ** Two fetches of one card *)

Section Interleavings.
Context {X Y : Type} (f : X -> option Y).

Lemma interleaved_omap (l1 l2 l : list X) :
  interleaved l1 l2 l -> interleaved (omap f l1) (omap f l2) (omap f l).
Proof.
  induction 1 as [|x l1 l2 l _ IH|x l1 l2 l _ IH]; simpl.
  - constructor.
  - destruct (f x); [by constructor|done].
  - destruct (f x); [by constructor|done].
Qed.

Lemma interleaved_nil_r (l1 l : list X) : interleaved l1 [] l -> l = l1.
Proof.
  intros H. remember (@nil X) as l2 eqn:Hl2.
  induction H as [|x l1 l2 l _ IH|x l1 l2 l _ IH]; [done| |done].
  by rewrite IH.
Qed.

Lemma interleaved_nil_l (l2 l : list X) : interleaved [] l2 l -> l = l2.
Proof.
  intros H. remember (@nil X) as l1 eqn:Hl1.
  induction H as [|x l1 l2 l _ IH|x l1 l2 l _ IH]; [done|done|].
  by rewrite IH.
Qed.

Lemma interleaved_Forall (P : X -> Prop) (l1 l2 l : list X) :
  interleaved l1 l2 l -> Forall P l1 -> Forall P l2 -> Forall P l.
Proof.
  induction 1 as [|x l1 l2 l _ IH|x l1 l2 l _ IH]; intros H1 H2;
    [done| |].
  - apply Forall_cons in H1 as [? ?]. constructor; auto.
  - apply Forall_cons in H2 as [? ?]. constructor; auto.
Qed.

Lemma interleaved_length (l1 l2 l : list X) :
  interleaved l1 l2 l -> length l = length l1 + length l2.
Proof. induction 1; simpl; lia. Qed.

Lemma interleaved_last (x : X) (l1 l2 l : list X) :
  interleaved l1 l2 l ->
  l1 = [] \/ last l1 = Some x -> l2 = [] \/ last l2 = Some x ->
  l = [] \/ last l = Some x.
Proof.
  induction 1 as [|y l1 l2 l Hl IH|y l1 l2 l Hl IH]; intros H1 H2;
    [by left| |]; right; rewrite last_cons.
  - destruct H1 as [|H1]; [done|]. rewrite last_cons in H1.
    assert (l1 = [] \/ last l1 = Some x) as H1'.
    { destruct (last l1) eqn:Hz; [by right|left; by apply last_None]. }
    destruct (IH H1' H2) as [-> | ->]; [|done].
    apply interleaved_length in Hl. simpl in Hl.
    destruct l1; [|simpl in Hl; lia]. simpl in H1. done.
  - destruct H2 as [|H2]; [done|]. rewrite last_cons in H2.
    assert (l2 = [] \/ last l2 = Some x) as H2'.
    { destruct (last l2) eqn:Hz; [by right|left; by apply last_None]. }
    destruct (IH H1 H2') as [-> | ->]; [|done].
    apply interleaved_length in Hl. simpl in Hl.
    destruct l2; [|simpl in Hl; lia]. simpl in H2. done.
Qed.

Lemma interleaved_app (l1 l2 : list X) : interleaved l1 l2 (l1 ++ l2).
Proof.
  induction l1 as [|x l1 IH]; simpl; [|by constructor].
  induction l2 as [|y l2 IH]; by constructor.
Qed.

End Interleavings.

Section TwoFetches.
Context {num : Type}.
Local Abbreviation card := (card (num:=num)).
Local Abbreviation outcome := (outcome (num:=num)).
Local Abbreviation effect := (effect (num:=num)).
Implicit Types (p : card_props) (c st : card) (es : list effect).

(** The last call of each setter decides the state. *)
Lemma run_effects_last st es :
  columns (tableData (run_effects st es))
  = default (columns (tableData st)) (last (column_sets es)) /\
  rows (tableData (run_effects st es))
  = default (rows (tableData st)) (last (row_sets es)) /\
  isLoading (run_effects st es)
  = default (isLoading st) (last (loading_sets es)) /\
  error (run_effects st es) = default (error st) (last (error_sets es)).
Proof.
  unfold column_sets, row_sets, loading_sets, error_sets.
  induction es as [|e es IH] using rev_ind; [done|].
  rewrite run_effects_app, !omap_app. simpl.
  destruct IH as (IH1 & IH2 & IH3 & IH4).
  destruct e; simpl; rewrite ?app_nil_r, ?last_snoc; simpl; done.
Qed.

Lemma logs_set_nothing es :
  Forall (fun e : effect => exists msg arg, e = ConsoleLog msg arg) es ->
  column_sets es = [] /\ row_sets es = [] /\ loading_sets es = [] /\
  error_sets es = [].
Proof.
  unfold column_sets, row_sets, loading_sets, error_sets.
  induction 1 as [|e es (m & a & ->) _ IH]; simpl; done.
Qed.

Lemma fetchColumns_fulfilled_sets p c data items filteredColumns :
  response_items data = Some items ->
  filterData items (selectedColumnAttributes p) = Some filteredColumns ->
  column_sets (fetchColumns p c (Fulfilled data)) = [filteredColumns] /\
  row_sets (fetchColumns p c (Fulfilled data)) = [] /\
  loading_sets (fetchColumns p c (Fulfilled data)) = [true; false] /\
  error_sets (fetchColumns p c (Fulfilled data)) = [""].
Proof.
  intros Hitems Hfilter. unfold fetchColumns. rewrite Hitems.
  pose proof (filterData_console_result items (selectedColumnAttributes p))
    as Hres.
  pose proof (logs_set_nothing _
                (filterData_console_logs items (selectedColumnAttributes p)))
    as (H1 & H2 & H3 & H4).
  destruct (filterData_console items _) as [logs res].
  simpl in Hres, H1, H2, H3, H4. rewrite Hfilter in Hres. subst res.
  unfold column_sets, row_sets, loading_sets, error_sets in *.
  rewrite !omap_app, H1, H2, H3, H4. done.
Qed.

Lemma fetchRows_fulfilled_sets p c data items filteredRows :
  rowCount c <> "0" ->
  response_items data = Some items ->
  filterData items (selectedRowAttributes p) = Some filteredRows ->
  column_sets (fetchRows p c (Fulfilled data)) = [] /\
  row_sets (fetchRows p c (Fulfilled data)) = [filteredRows] /\
  loading_sets (fetchRows p c (Fulfilled data)) = [true; false] /\
  error_sets (fetchRows p c (Fulfilled data)) = [""] /\
  notifications (fetchRows p c (Fulfilled data))
  = [(table_id (table p),
      {| columns := columns (tableData c); rows := filteredRows |})].
Proof.
  intros Hmode%String.eqb_neq Hitems Hfilter. unfold fetchRows.
  rewrite Hmode, Hitems.
  pose proof (filterData_console_result items (selectedRowAttributes p))
    as Hres.
  pose proof (filterData_console_quiet items (selectedRowAttributes p))
    as (_ & Hnote & _).
  pose proof (logs_set_nothing _
                (filterData_console_logs items (selectedRowAttributes p)))
    as (H1 & H2 & H3 & H4).
  destruct (filterData_console items _) as [logs res].
  simpl in Hres, Hnote, H1, H2, H3, H4. rewrite Hfilter in Hres. subst res.
  unfold column_sets, row_sets, loading_sets, error_sets in *.
  rewrite !omap_app, !notifications_app, H1, H2, H3, H4, Hnote. done.
Qed.

(** X17.  When a column fetch and a row fetch of one card both succeed,
    then however their calls interleave, the card ends with the filtered
    columns and the filtered rows, not loading and without error.  The
    parent is notified twice, and each notification carries, beside the
    fresh half, the other half as it was in the render that started that
    fetch. *)
Theorem interleaved_fetches_store_both p c1 c2 st data1 data2 items1 items2
    filteredColumns filteredRows es :
  rowCount c2 <> "0" ->
  response_items data1 = Some items1 ->
  filterData items1 (selectedColumnAttributes p) = Some filteredColumns ->
  response_items data2 = Some items2 ->
  filterData items2 (selectedRowAttributes p) = Some filteredRows ->
  interleaved (fetchColumns p c1 (Fulfilled data1))
    (fetchRows p c2 (Fulfilled data2)) es ->
  let st' := run_effects st es in
  columns (tableData st') = filteredColumns /\
  rows (tableData st') = filteredRows /\
  isLoading st' = false /\ error_shown st' = false /\
  interleaved
    [(table_id (table p),
      {| columns := filteredColumns; rows := rows (tableData c1) |})]
    [(table_id (table p),
      {| columns := columns (tableData c2); rows := filteredRows |})]
    (notifications es).
Proof.
  intros Hmode Hitems1 Hfilter1 Hitems2 Hfilter2 Hes st'.
  destruct (fetchColumns_fulfilled_sets p c1 _ _ _ Hitems1 Hfilter1)
    as (Hc1 & Hr1 & Hl1 & He1).
  destruct (fetchRows_fulfilled_sets p c2 _ _ _ Hmode Hitems2 Hfilter2)
    as (Hc2 & Hr2 & Hl2 & He2 & Hn2).
  destruct (fetchColumns_fulfilled p c1 st _ _ _ Hitems1 Hfilter1)
    as [_ Hn1].
  destruct (run_effects_last st es) as (Hcol & Hrow & Hload & Herr).
  fold st' in Hcol, Hrow, Hload, Herr.
  pose proof (interleaved_omap
                (fun e => match e with
                          | SetTableDataColumns x => Some x | _ => None
                          end) _ _ _ Hes) as Hcs.
  pose proof (interleaved_omap
                (fun e => match e with
                          | SetTableDataRows x => Some x | _ => None
                          end) _ _ _ Hes) as Hrs.
  pose proof (interleaved_omap
                (fun e => match e with
                          | SetIsLoading b => Some b | _ => None
                          end) _ _ _ Hes) as Hls.
  pose proof (interleaved_omap
                (fun e => match e with
                          | SetError m => Some m | _ => None
                          end) _ _ _ Hes) as Hers.
  pose proof (interleaved_omap
                (fun e => match e with
                          | OnTableDataChange i d => Some (i, d) | _ => None
                          end) _ _ _ Hes) as Hns.
  fold (column_sets (fetchColumns p c1 (Fulfilled data1))) in Hcs.
  fold (column_sets (fetchRows p c2 (Fulfilled data2))) in Hcs.
  fold (row_sets (fetchColumns p c1 (Fulfilled data1))) in Hrs.
  fold (row_sets (fetchRows p c2 (Fulfilled data2))) in Hrs.
  fold (loading_sets (fetchColumns p c1 (Fulfilled data1))) in Hls.
  fold (loading_sets (fetchRows p c2 (Fulfilled data2))) in Hls.
  fold (error_sets (fetchColumns p c1 (Fulfilled data1))) in Hers.
  fold (error_sets (fetchRows p c2 (Fulfilled data2))) in Hers.
  fold (notifications (fetchColumns p c1 (Fulfilled data1))) in Hns.
  fold (notifications (fetchRows p c2 (Fulfilled data2))) in Hns.
  fold (column_sets es) in Hcs. fold (row_sets es) in Hrs.
  fold (loading_sets es) in Hls. fold (error_sets es) in Hers.
  fold (notifications es) in Hns.
  rewrite Hc1, Hc2 in Hcs. rewrite Hr1, Hr2 in Hrs.
  rewrite Hl1, Hl2 in Hls. rewrite He1, He2 in Hers.
  rewrite Hn1, Hn2 in Hns.
  apply interleaved_nil_r in Hcs. apply interleaved_nil_l in Hrs.
  rewrite Hcs in Hcol. rewrite Hrs in Hrow.
  split_and!; [done|done| | |done].
  - rewrite Hload.
    destruct (interleaved_last false _ _ _ Hls) as [Hnil| ->];
      [by right|by right| |done].
    apply interleaved_length in Hls. rewrite Hnil in Hls. done.
  - unfold error_shown. rewrite Herr.
    destruct (interleaved_last "" _ _ _ Hers) as [Hnil| ->];
      [by right|by right| |done].
    apply interleaved_length in Hers. rewrite Hnil in Hers. done.
Qed.

End TwoFetches.

Section ErrorBanner.
Context {num : Type}.
Local Abbreviation card := (card (num:=num)).
Local Abbreviation outcome := (outcome (num:=num)).
Implicit Types (p : card_props) (c st : card) (settled : outcome).

(** X18.  The error of a rejected column fetch lasts only until the next
    row fetch: a row fetch that starts afterwards and does not fail itself
    (in mode ['0'] it cannot) leaves the card without any error, although
    the columns are still the ones from before the failure. *)
Theorem later_fetchRows_clears_error p c st p' c' settled :
  let st1 := run_effects st (fetchColumns p c Rejected) in
  let st2 := run_effects st1 (fetchRows p' c' settled) in
  error_shown st1 = true /\
  columns (tableData st1) = columns (tableData st) /\
  (rowCount c' = "0" \/ ~ fetch_fails (selectedRowAttributes p') settled ->
   error_shown st2 = false /\
   columns (tableData st2) = columns (tableData st)).
Proof.
  intros st1 st2. unfold st2, st1.
  destruct (fetchColumns_failed p c st Rejected I) as [-> _].
  split_and!; [done|done|].
  intros Hok.
  destruct (String.eqb_spec (rowCount c') "0") as [H0|H0].
  - unfold fetchRows. by rewrite H0.
  - destruct Hok as [?|Hok]; [done|].
    destruct (fetch_fails_or_not (selectedRowAttributes p') settled)
      as [?|(data & items & filtered & -> & Hitems & Hfilter)]; [done|].
    by rewrite (fetchRows_fulfilled p' c' _ _ _ _ H0 Hitems Hfilter).
Qed.

End ErrorBanner.

(** X17 with the two fetches of the first render of the card of table
    [t1], the column fetch finishing before the row fetch starts. *)
Lemma interleaved_fetches_store_both_witness :
  let es := fetchColumns sample_props initial_card
              (Fulfilled sample_columns_response)
            ++ fetchRows sample_props initial_card
                 (Fulfilled sample_rows_response) in
  let st' := run_effects initial_card es in
  rowCount (initial_card (num:=Z)) <> "0" /\
  interleaved
    (fetchColumns sample_props initial_card
       (Fulfilled sample_columns_response))
    (fetchRows sample_props initial_card (Fulfilled sample_rows_response))
    es /\
  columns (tableData st') = [JObj [("id", JStr "c1")]] /\
  rows (tableData st') = [JObj sample_filtered_row] /\
  isLoading st' = false /\ error_shown st' = false /\
  interleaved
    [("t1", {| columns := [JObj [("id", JStr "c1")]]; rows := [] |})]
    [("t1", {| columns := []; rows := [JObj sample_filtered_row] |})]
    (notifications es).
Proof.
  intros es st'.
  assert (rowCount (initial_card (num:=Z)) <> "0") as Hmode by discriminate.
  assert (interleaved
            (fetchColumns sample_props initial_card
               (Fulfilled sample_columns_response))
            (fetchRows sample_props initial_card
               (Fulfilled sample_rows_response)) es) as Hes
    by apply interleaved_app.
  split; [exact Hmode|]. split; [exact Hes|].
  exact (interleaved_fetches_store_both sample_props initial_card
           initial_card initial_card sample_columns_response
           sample_rows_response _ _ _ _ es Hmode eq_refl eq_refl eq_refl
           eq_refl Hes).
Defined.

(** X18 with a row fetch in mode ['0'] after the rejected column fetch. *)
Lemma later_fetchRows_clears_error_witness :
  let st1 := run_effects (sample_card "1")
               (fetchColumns sample_props (sample_card "1") Rejected) in
  let st2 := run_effects st1
               (fetchRows sample_props (sample_card "0") Rejected) in
  rowCount (sample_card "0") = "0" /\
  error_shown st1 = true /\ error_shown st2 = false /\
  columns (tableData st2) = columns (tableData (sample_card "1")).
Proof.
  intros st1 st2.
  pose proof (later_fetchRows_clears_error sample_props (sample_card "1")
                (sample_card "1") sample_props (sample_card "0") Rejected)
    as (Hshown & _ & Hlater).
  destruct (Hlater (or_introl eq_refl)) as [Hgone Hsame].
  split_and!; [reflexivity|exact Hshown|exact Hgone|exact Hsame].
Defined.
